(** * gpx-mode: the two GPX rendering scripts

    A shallow embedding of [gpx2html.py] (track map renderer) and
    [plot_track_elevation.py] (elevation profile renderer).

    Numbers.  Python floats are modelled by rationals [Q] with exact
    arithmetic; Python's [int] 0 and [float] 0.0 denote the same number.
    Equality of numbers is [Qeq] (written [==]).  The tick values that
    matplotlib hands to the two label formatters are binary64 floats
    ([spec_float], the IEEE 754 specification of the Standard Library), since
    a label depends on how [x / 1000] is rounded.

    Outside world.  [gpxpy.parse] is taken as already done: the scripts are
    embedded from the parsed document on (lines 19-28 of [gpx2html.py],
    lines 24-34 of [plot_track_elevation.py]); the two indices are the
    results of [int(sys.argv[2])] and [int(sys.argv[3])].  The rendering
    libraries are modelled by the values handed to them; the only observable
    effect is the file written by [save] / [savefig]. *)

From Stdlib Require Import QArith Qabs Qpower Ascii SpecFloat.
From stdpp Require Import gmap strings list fin_maps.
From Equations Require Import Equations.

Local Open Scope Q_scope.

(** ** Python exceptions and results *)

Inductive exc : Type :=
  | IndexError   (* list index out of range *)
  | ValueError.  (* empty sequence given to min, max or a bounds fit *)

Inductive result (A : Type) : Type :=
  | Ok (a : A)
  | Raise (e : exc).
Arguments Ok {A} a.
Arguments Raise {A} e.

#[global] Instance result_ret : MRet result := λ A a, Ok a.
#[global] Instance result_bind : MBind result := λ A B k r,
  match r with
  | Ok a => k a
  | Raise e => Raise e
  end.

(** ** The parsed GPX document (gpxpy's objects, read-only) *)

Record GPXTrackPoint : Type := mkPoint {
  latitude : Q;
  longitude : Q;
  elevation : option Q
}.

Record GPXTrackSegment : Type := mkSegment { points : list GPXTrackPoint }.
Record GPXTrack : Type := mkTrack { segments : list GPXTrackSegment }.
Record GPX : Type := mkGPX { tracks : list GPXTrack }.

(** ** Python list subscription [l[i]]

    A negative index counts from the end; an index outside
    [-len(l) <= i < len(l)] raises IndexError. *)

Definition py_getitem {A} (l : list A) (i : Z) : result A :=
  let n := Z.of_nat (length l) in
  let j := if (i <? 0)%Z then (i + n)%Z else i in
  if ((j <? 0)%Z || (n <=? j)%Z)%bool then Raise IndexError
  else match l !! Z.to_nat j with
       | Some a => Ok a
       | None => Raise IndexError
       end.


(** ** Python builtins used by the scripts *)

Definition Qlt_bool (x y : Q) : bool := negb (Qle_bool y x).

(** [min(l)]: the first smallest item; ValueError on an empty sequence. *)
Definition py_min (l : list Q) : result Q :=
  match l with
  | [] => Raise ValueError
  | x :: rest => Ok (fold_left (λ m item, if Qlt_bool item m then item else m) rest x)
  end.

(** [max(l)]: the first largest item; ValueError on an empty sequence. *)
Definition py_max (l : list Q) : result Q :=
  match l with
  | [] => Raise ValueError
  | x :: rest => Ok (fold_left (λ m item, if Qlt_bool m item then item else m) rest x)
  end.

(** [x or 0] for an optional number [x]: [None] and zero are falsy, so the
    right operand 0 is the value; any other number is the value itself. *)
Definition py_or_0 (x : option Q) : Q :=
  match x with
  | None => 0
  | Some q => if Qeq_bool q 0 then 0 else q
  end.

(** ** Binary64 floats *)

Definition prec : Z := 53.
Definition emax : Z := 1024.

(** [float(z)] for a Python [int] [z]. *)
Definition float_of_Z (z : Z) : spec_float := binary_normalize prec emax z 0 false.

(** [x / y] on floats, for a divisor that is not zero. *)
Definition float_div (x y : spec_float) : spec_float := SFdiv prec emax x y.

(** ** The format specification ['g'] (general format, default precision 6)

    A finite non-zero float is rounded, from its exact value, to six
    significant digits (ties to even), giving digits [m] in [10^5, 10^6) and
    a decimal exponent [e] with value [m * 10^(e-5)].  For [-4 <= e < 6] it
    is written in fixed notation, otherwise in scientific notation;
    insignificant trailing zeros of the significand are removed, and the
    decimal point with them when no digit follows it. *)

Fixpoint exp10 (fuel : nat) (n d : Z) : Z :=
  match fuel with
  | O => 0
  | S fuel' =>
      if (n <? d)%Z then (exp10 fuel' (10 * n) d - 1)%Z
      else if (10 * d <=? n)%Z then (exp10 fuel' n (10 * d) + 1)%Z
      else 0%Z
  end.

(** [floor (log10 (n / d))] for positive [n] and [d]. *)
Definition floor_log10 (n d : Z) : Z :=
  exp10 (Z.to_nat (Z.log2 n + Z.log2 d) + 2) n d.

Definition round_half_even (n d : Z) : Z :=
  let q := (n / d)%Z in
  let r := (n mod d)%Z in
  if (2 * r <? d)%Z then q
  else if (d <? 2 * r)%Z then (q + 1)%Z
  else if Z.even q then q else (q + 1)%Z.

(** The six significant digits and the decimal exponent of [n / d]. *)
Definition sig6 (n d : Z) : Z * Z :=
  let e := floor_log10 n d in
  let m := if (0 <=? 5 - e)%Z then round_half_even (n * 10 ^ (5 - e)) d
           else round_half_even n (d * 10 ^ (e - 5)) in
  if (m =? 10 ^ 6)%Z then (10 ^ 5, e + 1)%Z else (m, e).

Fixpoint rstrip0 (l : list ascii) : list ascii :=
  match l with
  | [] => []
  | c :: rest =>
      match rstrip0 rest with
      | [] => if Ascii.eqb c "0" then [] else [c]
      | rest' => c :: rest'
      end
  end.

(** The character of a decimal digit. *)
Definition digit_char (d : Z) : ascii := ascii_of_nat (48 + Z.to_nat d).

(** The six digits of a significand [10^5 <= m < 10^6]. *)
Definition digits_of (m : Z) : list ascii :=
  (λ i, digit_char ((m / 10 ^ i) mod 10)) <$> [5; 4; 3; 2; 1; 0]%Z.

(** The decimal digits of [n >= 0], most significant first. *)
Fixpoint decimal_digits (fuel : nat) (n : Z) : list ascii :=
  match fuel with
  | O => []
  | S fuel' =>
      if (n <? 10)%Z then [digit_char n]
      else decimal_digits fuel' (n / 10) ++ [digit_char (n mod 10)]
  end.

(** The exponent part: [e], a sign, and at least two digits. *)
Definition exponent_chars (e : Z) : list ascii :=
  "e"%char :: (if (e <? 0)%Z then "-" else "+")%char ::
  (if (Z.abs e <? 10)%Z then ["0"%char; digit_char (Z.abs e)]
   else decimal_digits (S (Z.to_nat (Z.log2 (Z.abs e)))) (Z.abs e)).

(** The decimal point and the digits after it, trailing zeros removed; nothing
    when no digit remains. *)
Definition point_chars (frac : list ascii) : list ascii :=
  match rstrip0 frac with
  | [] => []
  | frac' => "."%char :: frac'
  end.

(** The general format of the positive fraction [n / d], without sign. *)
Definition g_chars (n d : Z) : list ascii :=
  let '(m, e) := sig6 n d in
  let ds := digits_of m in
  if ((-4 <=? e)%Z && (e <? 6)%Z)%bool then
    if (0 <=? e)%Z then
      take (Z.to_nat (e + 1)) ds ++ point_chars (drop (Z.to_nat (e + 1)) ds)
    else
      "0"%char :: point_chars (replicate (Z.to_nat (- e - 1)) "0"%char ++ ds)
  else
    take 1 ds ++ point_chars (drop 1 ds) ++ exponent_chars e.

(** The sign of a float whose sign bit is [s]. *)
Definition sign_chars (s : bool) : list ascii := if s then ["-"%char] else [].

(** [format(x, 'g')] for a float [x]. *)
Definition format_g (x : spec_float) : string :=
  String.string_of_list_ascii
    match x with
    | S754_zero s => sign_chars s ++ ["0"%char]
    | S754_infinity s => sign_chars s ++ ["i"; "n"; "f"]%char
    | S754_nan => ["n"; "a"; "n"]%char
    | S754_finite s m e =>
        sign_chars s ++
        (if (0 <=? e)%Z then g_chars (Z.pos m * 2 ^ e) 1
         else g_chars (Z.pos m) (2 ^ (- e)))
    end.

(** ** The rendering libraries, as the values handed to them *)

(** folium *)
Inductive MapChild : Type :=
  | PolyLine (locations : list (Q * Q)) (weight : Z)
  | FitBounds (bounds : list (Q * Q)).

Record FoliumMap : Type := mkMap {
  map_location : option (Q * Q);
  map_tiles : string;
  map_width : Z;
  map_height : Z;
  map_children : list MapChild
}.

Definition folium_Map (location : option (Q * Q)) (tiles : string)
    (width height : Z) : FoliumMap :=
  mkMap location tiles width height [].

(** [child.add_to(m)] *)
Definition add_to (child : MapChild) (m : FoliumMap) : FoliumMap :=
  mkMap (map_location m) (map_tiles m) (map_width m) (map_height m)
        (map_children m ++ [child]).

(** Modelled from the spec: folium's [Map.fit_bounds] is not part of this
    repository.  Section 4.1 step 5: the viewport is set to the bounding box
    of the coordinates, and the call fails if the coordinate sequence is
    empty (no bounds to fit). *)
Definition fit_bounds (m : FoliumMap) (bounds : list (Q * Q)) : result FoliumMap :=
  match bounds with
  | [] => Raise ValueError
  | _ :: _ => Ok (add_to (FitBounds bounds) m)
  end.

(** matplotlib: one figure with one axes *)
Record Figure : Type := mkFigure {
  fig_size : Q * Q;
  fig_fills : list (list Q * list Q);
  fig_xformatter : option (spec_float → string);
  fig_yformatter : option (spec_float → string);
  fig_ylim : option (Q * Q)
}.

Definition subplots (figsize : Q * Q) : Figure :=
  mkFigure figsize [] None None None.

Definition fill_between (x y1 : list Q) (f : Figure) : Figure :=
  mkFigure (fig_size f) (fig_fills f ++ [(x, y1)]) (fig_xformatter f)
           (fig_yformatter f) (fig_ylim f).

Definition xaxis_set_major_formatter (fmt : spec_float → string) (f : Figure)
    : Figure :=
  mkFigure (fig_size f) (fig_fills f) (Some fmt) (fig_yformatter f) (fig_ylim f).

Definition yaxis_set_major_formatter (fmt : spec_float → string) (f : Figure)
    : Figure :=
  mkFigure (fig_size f) (fig_fills f) (fig_xformatter f) (Some fmt) (fig_ylim f).

Definition ylim (bottom top : Q) (f : Figure) : Figure :=
  mkFigure (fig_size f) (fig_fills f) (fig_xformatter f) (fig_yformatter f)
           (Some (bottom, top)).

(** ** Output files and the script monad *)

Inductive File : Type :=
  | HtmlFile (m : FoliumMap)
  | ImageFile (f : Figure) (dpi : Z).

(** A script step reads and writes the output files and may raise; an
    exception is never caught, so it ends the run. *)
Definition script (A : Type) : Type :=
  gmap string File → result A * gmap string File.

#[global] Instance script_ret : MRet script := λ A a fs, (Ok a, fs).
#[global] Instance script_bind : MBind script := λ A B k m fs,
  match m fs with
  | (Ok a, fs') => k a fs'
  | (Raise e, fs') => (Raise e, fs')
  end.

(** A step without effect on the files. *)
Definition lift {A} (r : result A) : script A := λ fs, (r, fs).

(** [route_map.save(output_filename)] *)
Definition save (m : FoliumMap) (filename : string) : script unit :=
  λ fs, (Ok (), <[filename := HtmlFile m]> fs).

(** [plt.savefig(output_filename, dpi=...)] *)
Definition savefig (f : Figure) (filename : string) (dpi : Z) : script unit :=
  λ fs, (Ok (), <[filename := ImageFile f dpi]> fs).

(** ** gpx2html.py *)

(** coordinates = [(p.latitude, p.longitude) for p in segment_data.points] *)
Definition coordinates (segment_data : GPXTrackSegment) : list (Q * Q) :=
  (λ p, (latitude p, longitude p)) <$> points segment_data.

Definition gpx2html (gpx : GPX) (track segment : Z) (output_filename : string)
    : script unit :=
  let route_map := folium_Map None "OpenStreetMap" 1024 768 in
  track_data ← lift (py_getitem (tracks gpx) track);
  segment_data ← lift (py_getitem (segments track_data) segment);
  let coords := coordinates segment_data in
  let route_map := add_to (PolyLine coords 6) route_map in
  route_map ← lift (fit_bounds route_map coords);
  save route_map output_filename.

(** ** plot_track_elevation.py *)

(** lambda x, _: f'{x/1000:g}km' *)
Definition km_label (x : spec_float) : string :=
  format_g (float_div x (float_of_Z 1000)) +:+ "km".

(** lambda x, _: f'{x:g}m' *)
Definition m_label (x : spec_float) : string := format_g x +:+ "m".

(** [inspect x] keeps the equation [x = y] when matching on [x]. *)
Definition inspect {A : Type} (x : A) : { y : A | x = y } := exist _ x eq_refl.

(** ** Generators

    A generator object is a suspended computation.  [gen_next] is Python's
    [next()]: it runs the body up to the next [yield]. *)

Inductive gen_step : Type :=
  | Yield (v : Q)
  | StopIteration
  | GenRaise (e : exc).

Section PlotTrackElevation.

(** [p.distance_2d(q)] of gpxpy: the planar distance in metres. *)
Variable distance_2d : GPXTrackPoint → GPXTrackPoint → Q.

(** The states of the generator made by [partial_distances]:
    - [GenCreated points]: the call has returned, the body has not started;
    - [GenSuspended last dist rest]: suspended at [yield dist], the [for]
      loop still has [rest] to visit;
    - [GenFinished]: the body returned or raised. *)
Inductive gen : Type :=
  | GenCreated (pts : list GPXTrackPoint)
  | GenSuspended (last : GPXTrackPoint) (dist : Q) (rest : list GPXTrackPoint)
  | GenFinished.

(** def partial_distances(points): calling a generator function only
    creates the generator. *)
Definition partial_distances (pts : list GPXTrackPoint) : gen :=
  GenCreated pts.

(** One turn of [for p in points: dist += p.distance_2d(last); last = p;
    yield dist]. *)
Definition loop_step (last : GPXTrackPoint) (dist : Q)
    (rest : list GPXTrackPoint) : gen_step * gen :=
  match rest with
  | [] => (StopIteration, GenFinished)
  | p :: rest' =>
      let dist' := dist + distance_2d p last in
      (Yield dist', GenSuspended p dist' rest')
  end.

Definition gen_next (g : gen) : gen_step * gen :=
  match g with
  | GenCreated pts =>
      match py_getitem pts 0 with          (* last = points[0] *)
      | Raise e => (GenRaise e, GenFinished)
      | Ok last => loop_step last 0 pts    (* dist = 0; for p in points *)
      end
  | GenSuspended last dist rest => loop_step last dist rest
  | GenFinished => (StopIteration, GenFinished)
  end.

(** Number of values the generator can still yield. *)
Definition gen_size (g : gen) : nat :=
  match g with
  | GenCreated pts => S (length pts)
  | GenSuspended _ _ rest => S (length rest)
  | GenFinished => 0
  end.

Lemma gen_next_Yield_size g v g' :
  gen_next g = (Yield v, g') → (gen_size g' < gen_size g)%nat.
Proof.
  destruct g as [pts|last dist rest|]; simpl.
  - destruct (py_getitem pts 0%Z); [|discriminate].
    destruct pts; simpl; [discriminate|].
    intros [= _ <-]. simpl. lia.
  - destruct rest; simpl; [discriminate|].
    intros [= _ <-]. simpl. lia.
  - discriminate.
Qed.

(** [list(g)]: call [next] until StopIteration; an exception escapes. *)
Equations? py_list (g : gen) : result (list Q) by wf (gen_size g) lt :=
  py_list g with inspect (gen_next g) := {
    | exist _ (Yield v, g') H => vs ← py_list g'; Ok (v :: vs)
    | exist _ (StopIteration, _) _ => Ok []
    | exist _ (GenRaise e, _) _ => Raise e
  }.
Proof. eapply gen_next_Yield_size; eassumption. Qed.

(** elevation = [p.elevation or 0 for p in segment_data.points] *)
Definition elevations (segment_data : GPXTrackSegment) : list Q :=
  (λ p, py_or_0 (elevation p)) <$> points segment_data.

Definition plot_track_elevation (gpx : GPX) (track segment : Z)
    (output_filename : string) : script unit :=
  track_data ← lift (py_getitem (tracks gpx) track);
  segment_data ← lift (py_getitem (segments track_data) segment);
  let elev := elevations segment_data in
  distance_travelled ← lift (py_list (partial_distances (points segment_data)));
  let fig := subplots (9, 3) in
  let fig := fill_between distance_travelled elev fig in
  let fig := xaxis_set_major_formatter km_label fig in
  let fig := yaxis_set_major_formatter m_label fig in
  bottom ← lift (py_min elev);
  top ← lift (py_max elev);
  let fig := ylim bottom top fig in
  savefig fig output_filename 100.

End PlotTrackElevation.

(** The cumulative-distance sequence in the spec's words (section 4.2
    step 3): a running total, to which the planar distance from the previous
    point is added for each point in order. *)
Fixpoint running_total (distance_2d : GPXTrackPoint → GPXTrackPoint → Q)
    (previous : GPXTrackPoint) (total : Q) (pts : list GPXTrackPoint) : list Q :=
  match pts with
  | [] => []
  | p :: rest =>
      let total' := total + distance_2d p previous in
      total' :: running_total distance_2d p total' rest
  end.


(** ** Vocabulary of the statements *)

(** Lines 19-20 of [gpx2html.py], 24-25 of [plot_track_elevation.py]:
    [gpx.tracks[track].segments[segment]]. *)
Definition select (gpx : GPX) (track segment : Z) : result GPXTrackSegment :=
  track_data ← py_getitem (tracks gpx) track;
  py_getitem (segments track_data) segment.

(** The spec's minimum and maximum of a sequence: an item of the sequence
    that bounds all its items. *)
Definition is_minimum (m : Q) (l : list Q) : Prop := m ∈ l ∧ ∀ x, x ∈ l → m <= x.
Definition is_maximum (m : Q) (l : list Q) : Prop := m ∈ l ∧ ∀ x, x ∈ l → x <= m.

(** Two points at the same place. *)
Definition same_place (p q : GPXTrackPoint) : Prop :=
  latitude p == latitude q ∧ longitude p == longitude q.

(** A concrete planar distance used to run the scripts on examples: the
    taxicab distance between the two positions. *)
Definition taxicab_distance (p q : GPXTrackPoint) : Q :=
  Qabs (latitude p - latitude q) + Qabs (longitude p - longitude q).

(** The segment of the spec's end-to-end example. *)
Definition example_points : list GPXTrackPoint :=
  [ mkPoint 0 0 (Some 10); mkPoint 0 (1 # 100) (Some 20); mkPoint 0 (2 # 100) None ].

Definition example_gpx : GPX := mkGPX [mkTrack [mkSegment example_points]].

(** What a successful run hands to [save] and [savefig]. *)
Definition rendered_map (coords : list (Q * Q)) : FoliumMap :=
  mkMap None "OpenStreetMap" 1024 768 [PolyLine coords 6; FitBounds coords].

Definition rendered_figure (ds elev : list Q) (bottom top : Q) : Figure :=
  mkFigure (9, 3) [(ds, elev)] (Some km_label) (Some m_label) (Some (bottom, top)).

(** A variant of the example in which only the elevations differ. *)
Definition example_points_flat : list GPXTrackPoint :=
  [ mkPoint 0 0 None; mkPoint 0 (1 # 100) (Some 7); mkPoint 0 (2 # 100) (Some 7) ].

Definition example_gpx_flat : GPX := mkGPX [mkTrack [mkSegment example_points_flat]].

(** A document whose only segment has no points. *)
Definition empty_segment_gpx : GPX := mkGPX [mkTrack [mkSegment []]].

(** Two points that differ at most in elevation. *)
Definition same_position (p q : GPXTrackPoint) : Prop :=
  latitude p = latitude q ∧ longitude p = longitude q.

(** A label "with one decimal" and the suffix km: digits, a point, exactly
    one digit, then [km]. *)
Definition is_digit (c : ascii) : bool := (Ascii.leb "0" c && Ascii.leb c "9")%bool.

Definition one_decimal_km (s : string) : bool :=
  match rev (String.list_ascii_of_string s) with
  | "m"%char :: "k"%char :: d :: "."%char :: int_part =>
      (is_digit d && forallb is_digit int_part
         && negb (Nat.eqb (length int_part) 0))%bool
  | _ => false
  end.

(** ** Driving a generator by hand *)

(** What [n] successive calls of [next] on [g] give, in order. *)
Fixpoint nexts (distance_2d : GPXTrackPoint → GPXTrackPoint → Q) (n : nat)
    (g : gen) : list gen_step :=
  match n with
  | O => []
  | S n' =>
      let '(r, g') := gen_next distance_2d g in
      r :: nexts distance_2d n' g'
  end.

(** ** The command line

    Both scripts begin alike (lines 11-17 of [gpx2html.py], lines 16-22 of
    [plot_track_elevation.py]): four positional arguments are taken from
    [sys.argv], the two indices are converted with [int], then the input
    file is opened and parsed. *)

(** How the run of a whole script ends. *)
Inductive outcome : Type :=
  | Completed
  | Uncaught (e : exc)   (* raised by a statement of the script itself *)
  | InputFailure.        (* raised by [open] or by [gpxpy.parse] *)

Record Args : Type := mkArgs {
  arg_filename : string;
  arg_track : Z;
  arg_segment : Z;
  arg_output_filename : string
}.

Section CommandLine.

(** [int(s)]: the integer that [s] spells, ValueError for any other text. *)
Variable py_int : string → result Z.

(** [with open(filename, 'r') as f: gpx = gpxpy.parse(f)]: the parsed
    document, or [None] when opening or parsing raises. *)
Variable load : string → option GPX.

(** filename = sys.argv[1]; track = int(sys.argv[2]);
    segment = int(sys.argv[3]); output_filename = sys.argv[4] *)
Definition read_argv (argv : list string) : result Args :=
  filename ← py_getitem argv 1;
  track ← py_getitem argv 2 ≫= py_int;
  segment ← py_getitem argv 3 ≫= py_int;
  output_filename ← py_getitem argv 4;
  Ok (mkArgs filename track segment output_filename).

(** A whole script: the arguments, the input file, then the statements
    [body] that follow the parsing. *)
Definition script_main (body : GPX → Z → Z → string → script unit)
    (argv : list string) (fs : gmap string File) : outcome * gmap string File :=
  match read_argv argv with
  | Raise e => (Uncaught e, fs)
  | Ok a =>
      match load (arg_filename a) with
      | None => (InputFailure, fs)
      | Some gpx =>
          match body gpx (arg_track a) (arg_segment a) (arg_output_filename a) fs with
          | (Ok _, fs') => (Completed, fs')
          | (Raise e, fs') => (Uncaught e, fs')
          end
      end
  end.

Definition gpx2html_main : list string → gmap string File → outcome * gmap string File :=
  script_main gpx2html.

Definition plot_track_elevation_main
    (distance_2d : GPXTrackPoint → GPXTrackPoint → Q)
    : list string → gmap string File → outcome * gmap string File :=
  script_main (plot_track_elevation distance_2d).

End CommandLine.

(** A conversion used to run the scripts on examples: decimal numerals in
    ASCII digits, with an optional minus sign. *)
Fixpoint decimal_value (acc : Z) (l : list ascii) : result Z :=
  match l with
  | [] => Ok acc
  | c :: rest =>
      if is_digit c
      then decimal_value (10 * acc + (Z.of_nat (nat_of_ascii c) - 48))%Z rest
      else Raise ValueError
  end.

Definition decimal_int (s : string) : result Z :=
  match String.list_ascii_of_string s with
  | [] => Raise ValueError
  | "-"%char :: [] => Raise ValueError
  | "-"%char :: ds =>
      match decimal_value 0 ds with
      | Ok v => Ok (- v)%Z
      | Raise e => Raise e
      end
  | ds => decimal_value 0 ds
  end.

(** An input directory used to run the scripts on examples: one readable
    GPX file. *)
Definition example_load (filename : string) : option GPX :=
  if String.eqb filename "ride.gpx" then Some example_gpx else None.

(** A variant of the example in which the missing elevation is recorded as
    an elevation of 0. *)
Definition example_points_zero : list GPXTrackPoint :=
  [ mkPoint 0 0 (Some 10); mkPoint 0 (1 # 100) (Some 20); mkPoint 0 (2 # 100) (Some 0) ].

(** Two points that the elevation script cannot tell apart: the same place,
    and elevations that [or 0] turns into the same number. *)
Definition same_profile_point (p q : GPXTrackPoint) : Prop :=
  latitude p = latitude q ∧ longitude p = longitude q ∧
  py_or_0 (elevation p) = py_or_0 (elevation q).

(** ** Vocabulary for the tick labels *)

(** *** Reading a decimal literal back *)

(** ** Reading a decimal literal back *)
(** [l] cut at the first [c]: what precedes it, and what follows if [c]
    occurs. *)
Fixpoint split_at (c : ascii) (l : list ascii) : list ascii * option (list ascii) :=
  match l with
  | [] => ([], None)
  | x :: rest =>
      if Ascii.eqb x c then ([], Some rest)
      else let '(before, after) := split_at c rest in (x :: before, after)
  end.

(** A non-empty run of digits. *)
Definition digits_value (l : list ascii) : result Z :=
  match l with
  | [] => Raise ValueError
  | _ => decimal_value 0 l
  end.

(** The digits after the point, as a fraction. *)
Definition fraction_literal (frac_part : option (list ascii)) : result Q :=
  match frac_part with
  | None => Ok 0
  | Some fd =>
      v ← digits_value fd;
      Ok (inject_Z v / inject_Z (10 ^ Z.of_nat (length fd)))
  end.

(** The exponent after [e]: a sign and digits. *)
Definition exponent_literal (exponent : option (list ascii)) : result Z :=
  match exponent with
  | None => Ok 0%Z
  | Some ("-"%char :: ed) => v ← digits_value ed; Ok (- v)%Z
  | Some ("+"%char :: ed) => digits_value ed
  | Some _ => Raise ValueError
  end.

(** The number that an unsigned literal [digits[.digits][e(+|-)digits]]
    denotes, exactly. *)
Definition unsigned_literal (l : list ascii) : result Q :=
  let '(mantissa, exponent) := split_at "e" l in
  let '(int_part, frac_part) := split_at "." mantissa in
  i ← digits_value int_part;
  f ← fraction_literal frac_part;
  k ← exponent_literal exponent;
  Ok ((inject_Z i + f) * 10 ^ k).

(** [float(s)] on the literals that format ['g'] writes for finite values,
    without rounding. *)
Definition decimal_literal (s : string) : result Q :=
  match String.list_ascii_of_string s with
  | "-"%char :: l => w ← unsigned_literal l; Ok (- w)
  | l => unsigned_literal l
  end.

(** *** What format ['g'] promises *)

(** [w] is the positive number [v] rounded to six significant digits, to
    nearest, ties to even: with [10^e <= v < 10^(e+1)], [w * 10^(5-e)] is an
    integer nearest to [v * 10^(5-e)]. *)
Definition rounded_to_six_digits (v w : Q) : Prop :=
  ∃ e m : Z,
    1 <= v * 10 ^ (- e) ∧ v * 10 ^ (- e) < 10 ∧
    w * 10 ^ (5 - e) == inject_Z m ∧
    Qabs (v * 10 ^ (5 - e) - inject_Z m) <= 1 # 2 ∧
    (Qabs (v * 10 ^ (5 - e) - inject_Z m) == 1 # 2 → Z.even m = true).

(** The part of a literal before its exponent. *)
Definition mantissa_chars (s : string) : list ascii :=
  fst (split_at "e" (String.list_ascii_of_string s)).

(** The value of a finite float with significand [m] and binary exponent [e]. *)
Definition finite_value (m : positive) (e : Z) : Q := inject_Z (Z.pos m) * 2 ^ e.

(** [body] is how format ['g'] writes the float [x]. *)
Definition general_format (x : spec_float) (body : string) : Prop :=
  match x with
  | S754_nan => body = "nan"
  | S754_infinity s => body = if s then "-inf" else "inf"
  | S754_zero s => body = if s then "-0" else "0"
  | S754_finite s m e =>
      ∃ w, decimal_literal body = Ok w ∧
           (if s then w < 0 else 0 < w) ∧
           rounded_to_six_digits (finite_value m e) (Qabs w) ∧
           ("e"%char ∈ String.list_ascii_of_string body
            ↔ ¬ (1 # 10000 <= Qabs w ∧ Qabs w < 1000000)) ∧
           last (mantissa_chars body) ≠ Some "."%char ∧
           ("."%char ∈ mantissa_chars body → last (mantissa_chars body) ≠ Some "0"%char)
  end.

(** A float that is not NaN and whose sign bit is [s]. *)
Definition has_sign (s : bool) (x : spec_float) : Prop :=
  match x with
  | S754_zero s' | S754_infinity s' | S754_finite s' _ _ => s' = s
  | S754_nan => False
  end.

(** *** Auxiliary notions of the proofs *)

(** [e] is the decimal exponent of the positive fraction [n / d]:
    [10^e <= n / d < 10^(e+1)], written without division. *)
Definition is_exponent (n d e : Z) : Prop :=
  (e ≤ 0 ∧ d ≤ n * 10 ^ (- e) < 10 * d)%Z ∨
  (0 ≤ e ∧ d * 10 ^ e ≤ n < 10 * d * 10 ^ e)%Z.

(** The fraction [n / d] times [10^k], as a numerator and a denominator. *)
Definition scaled_fraction (n d k : Z) : Z * Z :=
  if (0 <=? k)%Z then (n * 10 ^ k, d)%Z else (n, d * 10 ^ (- k))%Z.

(** Whether format ['g'] writes the decimal exponent [e] in fixed notation. *)
Definition fixed_notation (e : Z) : bool := ((-4 <=? e)%Z && (e <? 6)%Z)%bool.

(** The digit that a character stands for. *)
(** helper definitions *)
Definition char_value (c : ascii) : Z := (Z.of_nat (nat_of_ascii c) - 48)%Z.

(** The value of a run of digits, most significant first. *)
Definition digits_number (l : list ascii) : Z :=
  fold_left (λ acc c, 10 * acc + char_value c)%Z l 0%Z.

(** A run of digit characters. *)
Definition all_digits (l : list ascii) : Prop := Forall (λ c, is_digit c = true) l.

(** The number written by an integer part and the digits after the point. *)
Definition mantissa_value (int_part frac : list ascii) : Q :=
  inject_Z (digits_number int_part)
  + inject_Z (digits_number frac) / inject_Z (10 ^ Z.of_nat (length frac)).

(** The digits after the point as they are written. *)
Definition written_fraction (frac : list ascii) : option (list ascii) :=
  match rstrip0 frac with
  | [] => None
  | frac' => Some frac'
  end.

(** * Properties *)

(** ** Subscription *)

Ltac getitem_cases :=
  unfold py_getitem; cbv zeta;
  repeat match goal with
    | |- context [(?x <? ?y)%Z] => destruct (Z.ltb_spec x y)
    | |- context [(?x <=? ?y)%Z] => destruct (Z.leb_spec x y)
    end; cbn [orb].

Lemma py_getitem_out_of_range {A} (l : list A) (i : Z) :
  (i < - Z.of_nat (length l) ∨ Z.of_nat (length l) ≤ i)%Z →
  py_getitem l i = Raise IndexError.
Proof. intros Hi. getitem_cases; try reflexivity; lia. Qed.

Lemma py_getitem_nonneg {A} (l : list A) (i : Z) (a : A) :
  (0 ≤ i)%Z → l !! Z.to_nat i = Some a → py_getitem l i = Ok a.
Proof.
  intros Hi Ha. apply lookup_lt_Some in Ha as Hlt.
  getitem_cases; try lia. by rewrite Ha.
Qed.

Lemma py_getitem_negative {A} (l : list A) (i : Z) (a : A) :
  (i < 0)%Z → (0 ≤ i + Z.of_nat (length l))%Z →
  l !! Z.to_nat (i + Z.of_nat (length l)) = Some a → py_getitem l i = Ok a.
Proof.
  intros Hi Hj Ha. getitem_cases; try lia. by rewrite Ha.
Qed.

Lemma py_getitem_Ok_inv {A} (l : list A) (i : Z) (a : A) :
  py_getitem l i = Ok a →
  (- Z.of_nat (length l) ≤ i < Z.of_nat (length l))%Z ∧
  l !! Z.to_nat (if (i <? 0)%Z then i + Z.of_nat (length l) else i)%Z = Some a.
Proof.
  getitem_cases; try discriminate;
    (destruct (l !! _) eqn:E; [|discriminate]);
    intros [= ->]; (split; [lia|done]).
Qed.

Lemma py_getitem_in_range {A} (l : list A) (i : Z) :
  (- Z.of_nat (length l) ≤ i < Z.of_nat (length l))%Z →
  ∃ a, py_getitem l i = Ok a.
Proof.
  intros Hi. destruct (Z.ltb_spec i 0) as [Hneg|Hpos].
  - destruct (lookup_lt_is_Some_2 l (Z.to_nat (i + Z.of_nat (length l)))) as [a Ha];
      [lia|]. exists a. apply py_getitem_negative; [lia..|done].
  - destruct (lookup_lt_is_Some_2 l (Z.to_nat i)) as [a Ha]; [lia|].
    exists a. by apply py_getitem_nonneg.
Qed.

(** ** The sample distance *)

Lemma taxicab_distance_nonneg p q : 0 <= taxicab_distance p q.
Proof.
  unfold taxicab_distance.
  rewrite <- (Qplus_0_r 0). apply Qplus_le_compat; apply Qabs_nonneg.
Qed.

Lemma taxicab_distance_self p : taxicab_distance p p == 0.
Proof.
  unfold taxicab_distance.
  assert (H : ∀ x : Q, Qabs (x - x) == 0).
  { intros x. assert (Hx : x - x == 0) by ring. rewrite Hx. reflexivity. }
  rewrite !H. reflexivity.
Qed.

Lemma Qabs_pos (x : Q) : ¬ x == 0 → 0 < Qabs x.
Proof.
  intros Hx.
  destruct (Qle_lt_or_eq _ _ (Qabs_nonneg x)) as [Hlt|Heq]; [exact Hlt|].
  destruct Hx.
  destruct (Qabs_Qle_condition x 0) as [Hc _].
  rewrite <- Heq in Hc. destruct (Hc (Qle_refl _)) as [H1 H2].
  apply Qle_antisym; [exact H2|exact H1].
Qed.

Lemma Qminus_eq_0 (x y : Q) : x - y == 0 → x == y.
Proof.
  intros H. assert (E : x == x - y + y) by ring. rewrite E, H. ring.
Qed.

Lemma taxicab_distance_pos p q : ¬ same_place p q → 0 < taxicab_distance p q.
Proof.
  intros Hpq. unfold taxicab_distance.
  destruct (Qeq_dec (latitude p) (latitude q)) as [Hlat|Hlat].
  - destruct (Qeq_dec (longitude p) (longitude q)) as [Hlon|Hlon].
    + destruct Hpq. by split.
    + rewrite Qplus_comm, <- (Qplus_0_l 0).
      apply Qplus_lt_le_compat; [|apply Qabs_nonneg].
      apply Qabs_pos. intros H. by apply Hlon, Qminus_eq_0.
  - rewrite <- (Qplus_0_l 0). apply Qplus_lt_le_compat; [|apply Qabs_nonneg].
    apply Qabs_pos. intros H. by apply Hlat, Qminus_eq_0.
Qed.

Section GeneratorFacts.

Variable distance_2d : GPXTrackPoint → GPXTrackPoint → Q.

Lemma py_list_next (g : gen) :
  py_list distance_2d g =
  match gen_next distance_2d g with
  | (Yield v, g') => vs ← py_list distance_2d g'; Ok (v :: vs)
  | (StopIteration, _) => Ok []
  | (GenRaise e, _) => Raise e
  end.
Proof.
  funelim (py_list distance_2d g);
    match goal with Hn : gen_next _ _ = _ |- _ => rewrite Hn end;
    reflexivity.
Qed.

Lemma py_list_suspended last dist rest :
  py_list distance_2d (GenSuspended last dist rest)
  = Ok (running_total distance_2d last dist rest).
Proof.
  revert last dist. induction rest as [|p rest IH]; intros last dist.
  - by rewrite py_list_next.
  - rewrite py_list_next. cbn [gen_next loop_step]. rewrite IH. reflexivity.
Qed.

Lemma py_list_created_cons p pts :
  py_list distance_2d (partial_distances (p :: pts))
  = Ok (running_total distance_2d p 0 (p :: pts)).
Proof.
  rewrite py_list_next.
  change (gen_next distance_2d (partial_distances (p :: pts)))
    with (loop_step distance_2d p 0 (p :: pts)).
  cbn [loop_step]. rewrite py_list_suspended. reflexivity.
Qed.

Lemma py_list_created_nil :
  py_list distance_2d (partial_distances []) = Raise IndexError.
Proof. by rewrite py_list_next. Qed.

Lemma running_total_length previous total pts :
  length (running_total distance_2d previous total pts) = length pts.
Proof.
  revert previous total. induction pts as [|p pts IH]; intros; simpl; [done|].
  by rewrite IH.
Qed.

(** C10: an empty point sequence fails at the first [next], not at the
    call.  The call [partial_distances([])] returns a generator (a value of
    type [gen], in its created state, no exception); asking that generator
    for its first element raises IndexError from [points[0]], and so does
    materialising it with [list()]. *)
Theorem partial_distances_empty_deferred :
  partial_distances [] = GenCreated [] ∧
  gen_next distance_2d (partial_distances []) = (GenRaise IndexError, GenFinished) ∧
  py_list distance_2d (partial_distances []) = Raise IndexError.
Proof.
  split; [reflexivity|]. split; [reflexivity|]. apply py_list_created_nil.
Qed.

(** *** Monotonicity of the cumulative distances *)

Hypothesis distance_2d_nonneg : ∀ p q, 0 <= distance_2d p q.
Hypothesis distance_2d_self : ∀ p, distance_2d p p == 0.

Lemma running_total_monotone previous total pts i j a b :
  (i ≤ j)%nat →
  (total :: running_total distance_2d previous total pts) !! i = Some a →
  (total :: running_total distance_2d previous total pts) !! j = Some b →
  a <= b.
Proof.
  revert previous total i j a b.
  induction pts as [|p pts IH]; intros previous total i j a b Hij Ha Hb.
  - destruct i as [|i]; [|by destruct i].
    destruct j as [|j]; [|by destruct j].
    simpl in Ha, Hb. injection Ha as <-. injection Hb as <-. apply Qle_refl.
  - cbn [running_total] in Ha, Hb.
    assert (Hstep : total <= total + distance_2d p previous).
    { rewrite <- (Qplus_0_r total) at 1.
      apply Qplus_le_r, distance_2d_nonneg. }
    destruct i as [|i].
    + simpl in Ha. injection Ha as <-.
      destruct j as [|j]; [simpl in Hb; injection Hb as <-; apply Qle_refl|].
      eapply Qle_trans; [exact Hstep|].
      eapply (IH p _ 0%nat j); [lia|done|exact Hb].
    + destruct j as [|j]; [lia|].
      eapply (IH p _ i j); [lia|exact Ha|exact Hb].
Qed.

(** C1: for every non-empty point sequence, materialising
    [partial_distances(points)] succeeds with one value per point; the
    values are non-decreasing and the first one is 0, provided the planar
    distance is non-negative and a point is at distance 0 from itself. *)
Theorem partial_distances_monotone_from_zero (pts : list GPXTrackPoint) :
  pts ≠ [] →
  ∃ ds, py_list distance_2d (partial_distances pts) = Ok ds ∧
        length ds = length pts ∧
        (∃ d0, ds !! 0%nat = Some d0 ∧ d0 == 0) ∧
        (∀ i j a b, (i ≤ j)%nat → ds !! i = Some a → ds !! j = Some b → a <= b).
Proof.
  destruct pts as [|p pts]; [done|]. intros _.
  exists (running_total distance_2d p 0 (p :: pts)).
  split; [apply py_list_created_cons|].
  split; [apply running_total_length|].
  split.
  - eexists. split; [reflexivity|].
    rewrite distance_2d_self. reflexivity.
  - intros i j a b Hij Ha Hb.
    eapply (running_total_monotone p 0 (p :: pts) (S i) (S j)); [lia|done..].
Qed.

End GeneratorFacts.

(** ** What a run of each script amounts to *)

Ltac run_script :=
  unfold mbind, script_bind, result_bind, lift, save, savefig; cbn beta iota.

Lemma gpx2html_run gpx track segment output_filename fs :
  gpx2html gpx track segment output_filename fs =
  match select gpx track segment with
  | Raise e => (Raise e, fs)
  | Ok segment_data =>
      match coordinates segment_data with
      | [] => (Raise ValueError, fs)
      | _ :: _ =>
          (Ok (), <[output_filename := HtmlFile (rendered_map (coordinates segment_data))]> fs)
      end
  end.
Proof.
  unfold gpx2html, select. run_script.
  destruct (py_getitem (tracks gpx) track) as [track_data|e]; [|reflexivity].
  destruct (py_getitem (segments track_data) segment) as [segment_data|e];
    [|reflexivity].
  destruct (coordinates segment_data); reflexivity.
Qed.

Lemma plot_track_elevation_run distance_2d gpx track segment output_filename fs :
  plot_track_elevation distance_2d gpx track segment output_filename fs =
  match select gpx track segment with
  | Raise e => (Raise e, fs)
  | Ok segment_data =>
      match py_list distance_2d (partial_distances (points segment_data)) with
      | Raise e => (Raise e, fs)
      | Ok ds =>
          match py_min (elevations segment_data) with
          | Raise e => (Raise e, fs)
          | Ok bottom =>
              match py_max (elevations segment_data) with
              | Raise e => (Raise e, fs)
              | Ok top =>
                  (Ok (), <[output_filename :=
                              ImageFile (rendered_figure ds (elevations segment_data)
                                                         bottom top) 100]> fs)
              end
          end
      end
  end.
Proof.
  unfold plot_track_elevation, select. run_script.
  destruct (py_getitem (tracks gpx) track) as [track_data|e]; [|reflexivity].
  destruct (py_getitem (segments track_data) segment) as [segment_data|e];
    [|reflexivity].
  destruct (py_list distance_2d _) as [ds|e]; [|reflexivity].
  destruct (py_min _) as [bottom|e]; [|reflexivity].
  destruct (py_max _) as [top|e]; reflexivity.
Qed.

Lemma select_out_of_range gpx track segment :
  ((track < - Z.of_nat (length (tracks gpx)) ∨
    Z.of_nat (length (tracks gpx)) ≤ track) ∨
   ∃ track_data, py_getitem (tracks gpx) track = Ok track_data ∧
     (segment < - Z.of_nat (length (segments track_data)) ∨
      Z.of_nat (length (segments track_data)) ≤ segment))%Z →
  select gpx track segment = Raise IndexError.
Proof.
  unfold select, mbind, result_bind. intros [Ht|(track_data & Ht & Hs)].
  - by rewrite py_getitem_out_of_range.
  - rewrite Ht. by apply py_getitem_out_of_range.
Qed.

(** C2 (as amended): a track index outside [-len(tracks) <= t < len(tracks)],
    or a segment index outside [-len(segments) <= s < len(segments)] of the
    selected track, makes both renderers fail with IndexError, and the
    output files are left as they were. *)
Theorem out_of_range_selection_fails gpx track segment output_filename fs :
  ((track < - Z.of_nat (length (tracks gpx)) ∨
    Z.of_nat (length (tracks gpx)) ≤ track) ∨
   ∃ track_data, py_getitem (tracks gpx) track = Ok track_data ∧
     (segment < - Z.of_nat (length (segments track_data)) ∨
      Z.of_nat (length (segments track_data)) ≤ segment))%Z →
  gpx2html gpx track segment output_filename fs = (Raise IndexError, fs) ∧
  ∀ distance_2d,
    plot_track_elevation distance_2d gpx track segment output_filename fs
    = (Raise IndexError, fs).
Proof.
  intros Hrange. apply select_out_of_range in Hrange. split.
  - by rewrite gpx2html_run, Hrange.
  - intros distance_2d. by rewrite plot_track_elevation_run, Hrange.
Qed.

(** The spec's end-to-end example: track 5 of a document with one track. *)
Lemma out_of_range_selection_fails_witness :
  gpx2html example_gpx 5 0 "out.html" ∅ = (Raise IndexError, ∅) ∧
  ∀ distance_2d,
    plot_track_elevation distance_2d example_gpx 5 0 "out.html" ∅
    = (Raise IndexError, ∅).
Proof.
  apply (out_of_range_selection_fails example_gpx 5 0 "out.html" ∅).
  left. right. simpl. lia.
Defined.

(** ** min, max and [or] *)

Lemma Qlt_bool_true (x y : Q) : Qlt_bool x y = true → x <= y ∧ ¬ y <= x.
Proof.
  unfold Qlt_bool. destruct (Qle_bool y x) eqn:E; [discriminate|]. intros _.
  assert (Hn : ¬ y <= x) by (rewrite <- Qle_bool_iff, E; discriminate).
  split; [apply Qlt_le_weak, Qnot_le_lt, Hn|exact Hn].
Qed.

Lemma Qlt_bool_false (x y : Q) : Qlt_bool x y = false → y <= x.
Proof.
  unfold Qlt_bool. destruct (Qle_bool y x) eqn:E; [|discriminate]. intros _.
  by apply Qle_bool_iff.
Qed.

Lemma fold_min_spec (rest : list Q) (x : Q) :
  is_minimum (fold_left (λ m item, if Qlt_bool item m then item else m) rest x)
             (x :: rest).
Proof.
  revert x. induction rest as [|y rest IH]; intros x.
  - split; [apply list_elem_of_here|].
    intros z ->%list_elem_of_singleton. apply Qle_refl.
  - cbn [fold_left].
    destruct (IH (if Qlt_bool y x then y else x)) as [Hmem Hle].
    apply elem_of_cons in Hmem.
    pose proof (Hle _ (list_elem_of_here _ _)) as Hfirst.
    assert (Hrest : ∀ z, z ∈ rest → fold_left
              (λ m item, if Qlt_bool item m then item else m) rest
              (if Qlt_bool y x then y else x) <= z).
    { intros z Hz. apply Hle. by apply list_elem_of_further. }
    destruct (Qlt_bool y x) eqn:E.
    + apply Qlt_bool_true in E as [Hyx _]. split.
      * rewrite !elem_of_cons. destruct Hmem as [->|Hmem]; auto.
      * intros z [->|[->|Hz]%elem_of_cons]%elem_of_cons; [|done|by apply Hrest].
        eapply Qle_trans; [exact Hfirst|exact Hyx].
    + apply Qlt_bool_false in E. split.
      * rewrite !elem_of_cons. destruct Hmem as [->|Hmem]; auto.
      * intros z [->|[->|Hz]%elem_of_cons]%elem_of_cons; [done| |by apply Hrest].
        eapply Qle_trans; [exact Hfirst|exact E].
Qed.

Lemma fold_max_spec (rest : list Q) (x : Q) :
  is_maximum (fold_left (λ m item, if Qlt_bool m item then item else m) rest x)
             (x :: rest).
Proof.
  revert x. induction rest as [|y rest IH]; intros x.
  - split; [apply list_elem_of_here|].
    intros z ->%list_elem_of_singleton. apply Qle_refl.
  - cbn [fold_left].
    destruct (IH (if Qlt_bool x y then y else x)) as [Hmem Hle].
    apply elem_of_cons in Hmem.
    pose proof (Hle _ (list_elem_of_here _ _)) as Hfirst.
    assert (Hrest : ∀ z, z ∈ rest → z <= fold_left
              (λ m item, if Qlt_bool m item then item else m) rest
              (if Qlt_bool x y then y else x)).
    { intros z Hz. apply Hle. by apply list_elem_of_further. }
    destruct (Qlt_bool x y) eqn:E.
    + apply Qlt_bool_true in E as [Hxy _]. split.
      * rewrite !elem_of_cons. destruct Hmem as [->|Hmem]; auto.
      * intros z [->|[->|Hz]%elem_of_cons]%elem_of_cons; [|done|by apply Hrest].
        eapply Qle_trans; [exact Hxy|exact Hfirst].
    + apply Qlt_bool_false in E. split.
      * rewrite !elem_of_cons. destruct Hmem as [->|Hmem]; auto.
      * intros z [->|[->|Hz]%elem_of_cons]%elem_of_cons; [done| |by apply Hrest].
        eapply Qle_trans; [exact E|exact Hfirst].
Qed.

Lemma py_min_nonempty (l : list Q) :
  l ≠ [] → ∃ m, py_min l = Ok m ∧ is_minimum m l.
Proof.
  destruct l as [|x rest]; [done|]. intros _.
  eexists. split; [reflexivity|]. apply fold_min_spec.
Qed.

Lemma py_max_nonempty (l : list Q) :
  l ≠ [] → ∃ m, py_max l = Ok m ∧ is_maximum m l.
Proof.
  destruct l as [|x rest]; [done|]. intros _.
  eexists. split; [reflexivity|]. apply fold_max_spec.
Qed.

Lemma py_or_0_None : py_or_0 None = 0.
Proof. reflexivity. Qed.

Lemma py_or_0_Some (e : Q) : py_or_0 (Some e) == e.
Proof.
  unfold py_or_0. destruct (Qeq_bool e 0) eqn:E; [|reflexivity].
  apply Qeq_bool_iff in E. by rewrite E.
Qed.

(** C4: a point without elevation contributes exactly 0 to the elevation
    series used by the elevation renderer, and a point with an elevation
    contributes that elevation; the series holds numbers, never [None]. *)
Theorem missing_elevation_is_zero (segment_data : GPXTrackSegment) (i : nat)
    (p : GPXTrackPoint) :
  points segment_data !! i = Some p →
  ∃ v : Q, elevations segment_data !! i = Some v ∧
           match elevation p with
           | None => v = 0
           | Some e => v == e
           end.
Proof.
  intros Hp. exists (py_or_0 (elevation p)). split.
  - unfold elevations. by rewrite list_lookup_fmap, Hp.
  - destruct (elevation p) as [e|]; [apply py_or_0_Some|apply py_or_0_None].
Qed.

Lemma missing_elevation_is_zero_witness :
  ∃ v : Q, elevations (mkSegment example_points) !! 2%nat = Some v ∧ v = 0.
Proof.
  apply (missing_elevation_is_zero (mkSegment example_points) 2
           (mkPoint 0 (2 # 100) None)).
  reflexivity.
Defined.

(** ** A run on a non-empty segment *)

Lemma plot_track_elevation_nonempty distance_2d gpx track segment
    output_filename fs segment_data :
  select gpx track segment = Ok segment_data →
  points segment_data ≠ [] →
  ∃ ds bottom top,
    plot_track_elevation distance_2d gpx track segment output_filename fs
    = (Ok (), <[output_filename :=
                  ImageFile (rendered_figure ds (elevations segment_data) bottom top)
                            100]> fs) ∧
    py_list distance_2d (partial_distances (points segment_data)) = Ok ds ∧
    py_min (elevations segment_data) = Ok bottom ∧
    py_max (elevations segment_data) = Ok top.
Proof.
  intros Hsel Hne. rewrite plot_track_elevation_run, Hsel.
  assert (Helev : elevations segment_data ≠ []).
  { unfold elevations. intros H%fmap_nil_inv. done. }
  destruct (py_min_nonempty _ Helev) as (bottom & Hmin & _).
  destruct (py_max_nonempty _ Helev) as (top & Hmax & _).
  destruct (points segment_data) as [|p pts] eqn:Hpts; [done|].
  exists (running_total distance_2d p 0 (p :: pts)), bottom, top.
  rewrite py_list_created_cons, Hmin, Hmax. done.
Qed.

(** C2 (as stated) fails: the indices -1, -1 are outside [0 <= t < len] and
    [0 <= s < len], yet Python's subscription takes them from the end, so
    both renderers select the only segment, succeed, and write the file. *)
Lemma negative_indices_select_from_the_end :
  ¬ (0 ≤ -1 < Z.of_nat (length (tracks example_gpx)))%Z ∧
  select example_gpx (-1) (-1) = Ok (mkSegment example_points) ∧
  gpx2html example_gpx (-1) (-1) "out.html" ∅
  = (Ok (), {[ "out.html" :=
                 HtmlFile (rendered_map [(0, 0); (0, 1 # 100); (0, 2 # 100)]) ]}) ∧
  fst (plot_track_elevation taxicab_distance example_gpx (-1) (-1) "out.png" ∅)
  = Ok () ∧
  is_Some (snd (plot_track_elevation taxicab_distance example_gpx (-1) (-1)
                  "out.png" ∅) !! "out.png").
Proof.
  split; [lia|]. split; [reflexivity|]. split; [reflexivity|].
  destruct (plot_track_elevation_nonempty taxicab_distance example_gpx (-1) (-1)
              "out.png" ∅ (mkSegment example_points))
    as (ds & bottom & top & Hrun & _); [reflexivity|discriminate|].
  rewrite Hrun. split; [reflexivity|].
  cbn [snd]. rewrite lookup_insert_eq. by eexists.
Qed.


(** The witness of C1 and the counterexample lemmas below run the scripts
    with the taxicab distance. *)
Lemma partial_distances_monotone_from_zero_witness :
  ∃ ds, py_list taxicab_distance (partial_distances example_points) = Ok ds ∧
        length ds = length example_points ∧
        (∃ d0, ds !! 0%nat = Some d0 ∧ d0 == 0) ∧
        (∀ i j a b, (i ≤ j)%nat → ds !! i = Some a → ds !! j = Some b → a <= b).
Proof.
  apply (partial_distances_monotone_from_zero taxicab_distance
           taxicab_distance_nonneg taxicab_distance_self example_points).
  discriminate.
Defined.

(** C5: on every non-empty selected segment the elevation renderer succeeds
    and the figure it saves has y-limits (min(elevation), max(elevation)),
    the smallest and the largest value of the zero-filled elevation series. *)
Theorem ylim_is_min_max distance_2d gpx track segment output_filename fs
    segment_data :
  select gpx track segment = Ok segment_data →
  points segment_data ≠ [] →
  ∃ fig bottom top,
    plot_track_elevation distance_2d gpx track segment output_filename fs
    = (Ok (), <[output_filename := ImageFile fig 100]> fs) ∧
    fig_ylim fig = Some (bottom, top) ∧
    py_min (elevations segment_data) = Ok bottom ∧
    py_max (elevations segment_data) = Ok top ∧
    is_minimum bottom (elevations segment_data) ∧
    is_maximum top (elevations segment_data).
Proof.
  intros Hsel Hne.
  destruct (plot_track_elevation_nonempty distance_2d gpx track segment
              output_filename fs segment_data Hsel Hne)
    as (ds & bottom & top & Hrun & _ & Hmin & Hmax).
  exists (rendered_figure ds (elevations segment_data) bottom top), bottom, top.
  assert (Helev : elevations segment_data ≠ []).
  { unfold elevations. intros H%fmap_nil_inv. done. }
  destruct (py_min_nonempty _ Helev) as (m & Hm & Hmspec).
  destruct (py_max_nonempty _ Helev) as (M & HM & HMspec).
  rewrite Hmin in Hm. injection Hm as <-.
  rewrite Hmax in HM. injection HM as <-.
  done.
Qed.

Lemma ylim_is_min_max_witness :
  ∃ fig bottom top,
    plot_track_elevation taxicab_distance example_gpx 0 0 "out.png" ∅
    = (Ok (), <["out.png" := ImageFile fig 100]> ∅) ∧
    fig_ylim fig = Some (bottom, top) ∧
    py_min (elevations (mkSegment example_points)) = Ok bottom ∧
    py_max (elevations (mkSegment example_points)) = Ok top ∧
    is_minimum bottom (elevations (mkSegment example_points)) ∧
    is_maximum top (elevations (mkSegment example_points)).
Proof.
  apply (ylim_is_min_max taxicab_distance example_gpx 0 0 "out.png" ∅
           (mkSegment example_points)).
  - reflexivity.
  - discriminate.
Defined.

(** ** Empty segments *)

(** C3 (as amended): on a selected segment without points both renderers
    fail and leave the output files as they were; the map renderer fails in
    the bounds fit, the elevation renderer fails with IndexError when the
    cumulative distances are materialised ([points[0]]), before [min] and
    [max] are reached. *)
Theorem empty_segment_fails gpx track segment output_filename fs segment_data :
  select gpx track segment = Ok segment_data →
  points segment_data = [] →
  gpx2html gpx track segment output_filename fs = (Raise ValueError, fs) ∧
  ∀ distance_2d,
    plot_track_elevation distance_2d gpx track segment output_filename fs
    = (Raise IndexError, fs).
Proof.
  intros Hsel Hpts. split.
  - rewrite gpx2html_run, Hsel. unfold coordinates. by rewrite Hpts.
  - intros distance_2d.
    rewrite plot_track_elevation_run, Hsel, Hpts, py_list_created_nil. done.
Qed.

Lemma empty_segment_fails_witness :
  gpx2html empty_segment_gpx 0 0 "out.html" ∅ = (Raise ValueError, ∅) ∧
  ∀ distance_2d,
    plot_track_elevation distance_2d empty_segment_gpx 0 0 "out.html" ∅
    = (Raise IndexError, ∅).
Proof.
  apply (empty_segment_fails empty_segment_gpx 0 0 "out.html" ∅ (mkSegment []));
    reflexivity.
Defined.

(** C3 (as stated) fails in its reason for the elevation renderer: [min] of
    the empty elevation series would raise ValueError, but the run ends
    earlier, with the IndexError of [points[0]]. *)
Lemma empty_segment_elevation_fails_before_min :
  select empty_segment_gpx 0 0 = Ok (mkSegment []) ∧
  py_min (elevations (mkSegment [])) = Raise ValueError ∧
  plot_track_elevation taxicab_distance empty_segment_gpx 0 0 "out.png" ∅
  = (Raise IndexError, ∅) ∧
  fst (plot_track_elevation taxicab_distance empty_segment_gpx 0 0 "out.png" ∅)
  ≠ Raise ValueError.
Proof.
  split; [reflexivity|]. split; [reflexivity|].
  assert (Hrun : plot_track_elevation taxicab_distance empty_segment_gpx 0 0
                   "out.png" ∅ = (Raise IndexError, ∅)).
  { rewrite plot_track_elevation_run.
    change (select empty_segment_gpx 0 0) with (Ok (mkSegment [])).
    cbn [points]. by rewrite py_list_created_nil. }
  rewrite Hrun. split; [reflexivity|discriminate].
Qed.

(** ** The coordinates of the map *)

(** C7: the coordinate sequence has one (latitude, longitude) pair per
    point of the selected segment, in the order of the points, and it is
    the sequence given both to the polyline and to the bounds fit of the
    saved map. *)
Theorem coordinates_one_per_point gpx track segment output_filename fs
    segment_data :
  select gpx track segment = Ok segment_data →
  length (coordinates segment_data) = length (points segment_data) ∧
  (∀ i : nat, coordinates segment_data !! i
              = (λ p, (latitude p, longitude p)) <$> (points segment_data !! i)) ∧
  (points segment_data ≠ [] →
   gpx2html gpx track segment output_filename fs
   = (Ok (), <[output_filename :=
                 HtmlFile (mkMap None "OpenStreetMap" 1024 768
                             [PolyLine (coordinates segment_data) 6;
                              FitBounds (coordinates segment_data)])]> fs)).
Proof.
  intros Hsel. split; [apply length_fmap|]. split.
  - intros i. apply list_lookup_fmap.
  - intros Hne. rewrite gpx2html_run, Hsel.
    destruct (coordinates segment_data) eqn:Hc; [|reflexivity].
    apply fmap_nil_inv in Hc. done.
Qed.

Lemma coordinates_one_per_point_witness :
  length (coordinates (mkSegment example_points)) = length example_points ∧
  (∀ i : nat, coordinates (mkSegment example_points) !! i
              = (λ p, (latitude p, longitude p)) <$> (example_points !! i)) ∧
  (example_points ≠ [] →
   gpx2html example_gpx 0 0 "out.html" ∅
   = (Ok (), <["out.html" :=
                 HtmlFile (mkMap None "OpenStreetMap" 1024 768
                             [PolyLine (coordinates (mkSegment example_points)) 6;
                              FitBounds (coordinates (mkSegment example_points))])]> ∅)).
Proof.
  apply (coordinates_one_per_point example_gpx 0 0 "out.html" ∅
           (mkSegment example_points)).
  reflexivity.
Defined.

Lemma coordinates_same_position segment_data1 segment_data2 :
  Forall2 same_position (points segment_data1) (points segment_data2) →
  coordinates segment_data1 = coordinates segment_data2.
Proof.
  unfold coordinates.
  induction 1 as [|p q ps qs [Hlat Hlon] _ IH]; [reflexivity|].
  cbn [fmap list_fmap]. rewrite Hlat, Hlon. f_equal. exact IH.
Qed.

(** C9: the map renderer does not look at elevations.  Two documents whose
    selected segments agree point by point on latitude and longitude give
    the same coordinate sequence and the same run: the same outcome and the
    same saved map. *)
Theorem map_ignores_elevation gpx1 gpx2 track segment output_filename fs
    segment_data1 segment_data2 :
  select gpx1 track segment = Ok segment_data1 →
  select gpx2 track segment = Ok segment_data2 →
  Forall2 same_position (points segment_data1) (points segment_data2) →
  coordinates segment_data1 = coordinates segment_data2 ∧
  gpx2html gpx1 track segment output_filename fs
  = gpx2html gpx2 track segment output_filename fs.
Proof.
  intros Hsel1 Hsel2 Hsame.
  pose proof (coordinates_same_position _ _ Hsame) as Hc.
  split; [exact Hc|].
  by rewrite !gpx2html_run, Hsel1, Hsel2, Hc.
Qed.

Lemma map_ignores_elevation_witness :
  coordinates (mkSegment example_points) = coordinates (mkSegment example_points_flat) ∧
  gpx2html example_gpx 0 0 "out.html" ∅ = gpx2html example_gpx_flat 0 0 "out.html" ∅.
Proof.
  apply (map_ignores_elevation example_gpx example_gpx_flat 0 0 "out.html" ∅
           (mkSegment example_points) (mkSegment example_points_flat)).
  - reflexivity.
  - reflexivity.
  - repeat constructor.
Defined.

(** ** The end-to-end example *)

Section EndToEnd.

Variable distance_2d : GPXTrackPoint → GPXTrackPoint → Q.

Hypothesis distance_2d_self : ∀ p, distance_2d p p == 0.
Hypothesis distance_2d_pos : ∀ p q, ¬ same_place p q → 0 < distance_2d p q.

(** C6: on the segment [(0, 0, 10), (0, 0.01, 20), (0, 0.02, None)] the
    elevation renderer plots the cumulative distances [0, d1, d1 + d2], where
    d1 and d2 are the planar distances between consecutive points and are
    positive, against the elevations [10, 20, 0], with y-limits (0, 20). *)
Theorem end_to_end_example gpx track segment output_filename fs :
  select gpx track segment = Ok (mkSegment example_points) →
  let d1 := distance_2d (mkPoint 0 (1 # 100) (Some 20)) (mkPoint 0 0 (Some 10)) in
  let d2 := distance_2d (mkPoint 0 (2 # 100) None) (mkPoint 0 (1 # 100) (Some 20)) in
  ∃ a b c,
    plot_track_elevation distance_2d gpx track segment output_filename fs
    = (Ok (), <[output_filename :=
                  ImageFile (rendered_figure [a; b; c] [10; 20; 0] 0 20) 100]> fs) ∧
    py_list distance_2d (partial_distances example_points) = Ok [a; b; c] ∧
    elevations (mkSegment example_points) = [10; 20; 0] ∧
    a == 0 ∧ b == d1 ∧ c == d1 + d2 ∧ 0 < d1 ∧ 0 < d2.
Proof.
  intros Hsel d1 d2.
  set (p0 := mkPoint 0 0 (Some 10)).
  exists (0 + distance_2d p0 p0), (0 + distance_2d p0 p0 + d1),
         (0 + distance_2d p0 p0 + d1 + d2).
  split; [|split; [|split; [|split; [|split; [|split; [|split]]]]]].
  - rewrite plot_track_elevation_run, Hsel.
    cbn [points]. unfold example_points.
    rewrite py_list_created_cons. reflexivity.
  - unfold example_points. rewrite py_list_created_cons. reflexivity.
  - reflexivity.
  - rewrite distance_2d_self. reflexivity.
  - rewrite distance_2d_self. ring.
  - rewrite distance_2d_self. ring.
  - apply distance_2d_pos. intros [_ H]. discriminate H.
  - apply distance_2d_pos. intros [_ H]. discriminate H.
Qed.

End EndToEnd.

Lemma end_to_end_example_witness :
  let d1 := taxicab_distance (mkPoint 0 (1 # 100) (Some 20)) (mkPoint 0 0 (Some 10)) in
  let d2 := taxicab_distance (mkPoint 0 (2 # 100) None) (mkPoint 0 (1 # 100) (Some 20)) in
  ∃ a b c,
    plot_track_elevation taxicab_distance example_gpx 0 0 "out.png" ∅
    = (Ok (), <["out.png" :=
                  ImageFile (rendered_figure [a; b; c] [10; 20; 0] 0 20) 100]> ∅) ∧
    py_list taxicab_distance (partial_distances example_points) = Ok [a; b; c] ∧
    elevations (mkSegment example_points) = [10; 20; 0] ∧
    a == 0 ∧ b == d1 ∧ c == d1 + d2 ∧ 0 < d1 ∧ 0 < d2.
Proof.
  apply (end_to_end_example taxicab_distance taxicab_distance_self
           taxicab_distance_pos example_gpx 0 0 "out.png" ∅).
  reflexivity.
Defined.

(** ** Tick labels *)

Section LabelDigits.

Local Open Scope Z_scope.

Lemma digit_char_cases (d : Z) :
  0 ≤ d < 10 →
  d = 0 ∨ d = 1 ∨ d = 2 ∨ d = 3 ∨ d = 4 ∨ d = 5 ∨ d = 6 ∨ d = 7 ∨ d = 8 ∨ d = 9.
Proof. lia. Qed.

Lemma digit_char_spec (d : Z) :
  0 ≤ d < 10 →
  is_digit (digit_char d) = true ∧ char_value (digit_char d) = d ∧
  (Ascii.eqb (digit_char d) "0" = true ↔ d = 0).
Proof.
  intros Hd.
  destruct (digit_char_cases d Hd) as [->|[->|[->|[->|[->|[->|[->|[->|[->| ->]]]]]]]]];
    (split; [reflexivity|split; [reflexivity|split; [try discriminate; reflexivity|try lia; reflexivity]]]).
Qed.

Lemma digit_char_value (d : Z) : 0 ≤ d < 10 → char_value (digit_char d) = d.
Proof. intros Hd. apply (digit_char_spec d Hd). Qed.

Lemma digit_char_is_digit (d : Z) : 0 ≤ d < 10 → is_digit (digit_char d) = true.
Proof. intros Hd. apply (digit_char_spec d Hd). Qed.

Lemma fold_digits_acc (l : list ascii) (acc : Z) :
  fold_left (λ acc c, 10 * acc + char_value c) l acc
  = acc * 10 ^ Z.of_nat (length l) + digits_number l.
Proof.
  unfold digits_number. revert acc.
  induction l as [|c l IH]; intros acc; [cbn; lia|].
  cbn [fold_left length]. rewrite IH, (IH (10 * 0 + char_value c)).
  rewrite Nat2Z.inj_succ, Z.pow_succ_r by lia. ring.
Qed.

Lemma digits_number_cons (c : ascii) (l : list ascii) :
  digits_number (c :: l) = char_value c * 10 ^ Z.of_nat (length l) + digits_number l.
Proof.
  unfold digits_number at 1. cbn [fold_left]. rewrite fold_digits_acc. ring.
Qed.

Lemma digits_number_app (l1 l2 : list ascii) :
  digits_number (l1 ++ l2)
  = digits_number l1 * 10 ^ Z.of_nat (length l2) + digits_number l2.
Proof.
  unfold digits_number at 1. rewrite fold_left_app.
  fold (digits_number l1). apply fold_digits_acc.
Qed.

Lemma decimal_value_digits (l : list ascii) (acc : Z) :
  all_digits l →
  decimal_value acc l = Ok (acc * 10 ^ Z.of_nat (length l) + digits_number l).
Proof.
  intros Hl. revert acc. induction Hl as [|c l Hc _ IH]; intros acc.
  - cbn. f_equal. unfold digits_number. cbn. lia.
  - cbn [decimal_value]. rewrite Hc. fold (char_value c). rewrite IH.
    f_equal. rewrite digits_number_cons. cbn [length].
    rewrite Nat2Z.inj_succ, Z.pow_succ_r by lia; ring.
Qed.

Lemma digits_value_digits (l : list ascii) :
  all_digits l → l ≠ [] → digits_value l = Ok (digits_number l).
Proof.
  intros Hl Hne. destruct l as [|c l]; [done|].
  unfold digits_value. rewrite decimal_value_digits by done. f_equal; lia.
Qed.

Lemma rstrip0_all_digits (l : list ascii) : all_digits l → all_digits (rstrip0 l).
Proof.
  induction 1 as [|c l Hc _ IH]; [constructor|].
  cbn [rstrip0]. destruct (rstrip0 l) as [|c' l'].
  - destruct (Ascii.eqb c "0"); constructor; [done|constructor].
  - by constructor.
Qed.

Lemma rstrip0_number (l : list ascii) :
  digits_number l * 10 ^ Z.of_nat (length (rstrip0 l))
  = digits_number (rstrip0 l) * 10 ^ Z.of_nat (length l).
Proof.
  induction l as [|c l IH]; [reflexivity|].
  cbn [rstrip0]. destruct (rstrip0 l) as [|c' l'] eqn:E.
  - cbn [length] in IH. change (10 ^ Z.of_nat 0) with 1 in IH.
    change (digits_number []) with 0 in IH.
    assert (Hl : digits_number l = 0) by lia.
    rewrite digits_number_cons, Hl.
    destruct (Ascii.eqb_spec c "0") as [->|Hc].
    + change (char_value "0") with 0. change (digits_number []) with 0. lia.
    + rewrite (digits_number_cons c []). cbn [length].
      change (digits_number []) with 0. change (10 ^ Z.of_nat 0) with 1.
      change (10 ^ Z.of_nat 1) with 10.
      rewrite Nat2Z.inj_succ, Z.pow_succ_r by lia. ring.
  - remember (c' :: l') as r eqn:Hr.
    rewrite (digits_number_cons c l), (digits_number_cons c r). cbn [length].
    rewrite !Nat2Z.inj_succ, !Z.pow_succ_r by lia.
    set (A := 10 ^ Z.of_nat (length l)) in *.
    set (R := 10 ^ Z.of_nat (length r)) in *.
    transitivity (10 * (char_value c * A * R + digits_number l * R)); [ring|].
    rewrite IH. ring.
Qed.

Lemma rstrip0_nil_number (l : list ascii) : rstrip0 l = [] → digits_number l = 0.
Proof.
  intros E. pose proof (rstrip0_number l) as H. rewrite E in H.
  change (digits_number []) with 0 in H. cbn [length] in H.
  change (10 ^ Z.of_nat 0) with 1 in H. lia.
Qed.

Lemma digits_of_all_digits (m : Z) : all_digits (digits_of m).
Proof.
  unfold digits_of. cbn [fmap list_fmap].
  repeat constructor; apply digit_char_is_digit, Z.mod_pos_bound; lia.
Qed.

Lemma digits_of_length (m : Z) : length (digits_of m) = 6%nat.
Proof. reflexivity. Qed.

Lemma digits_of_number (m : Z) : 0 ≤ m < 10 ^ 6 → digits_number (digits_of m) = m.
Proof.
  intros Hm. unfold digits_of, digits_number. cbn [fmap list_fmap fold_left].
  rewrite !digit_char_value by (apply Z.mod_pos_bound; lia).
  change (10 ^ 0) with 1. change (10 ^ 1) with 10. change (10 ^ 2) with 100.
  change (10 ^ 3) with 1000. change (10 ^ 4) with 10000.
  change (10 ^ 5) with 100000. change (10 ^ 6) with 1000000 in Hm.
  rewrite Z.div_1_r.
  pose proof (Z.div_mod m 10 ltac:(lia)).
  pose proof (Z.div_mod (m / 10) 10 ltac:(lia)).
  pose proof (Z.div_mod (m / 100) 10 ltac:(lia)).
  pose proof (Z.div_mod (m / 1000) 10 ltac:(lia)).
  pose proof (Z.div_mod (m / 10000) 10 ltac:(lia)).
  pose proof (Z.div_mod (m / 100000) 10 ltac:(lia)).
  assert (m / 10 / 10 = m / 100) by (rewrite Z.div_div by lia; reflexivity).
  assert (m / 100 / 10 = m / 1000) by (rewrite Z.div_div by lia; reflexivity).
  assert (m / 1000 / 10 = m / 10000) by (rewrite Z.div_div by lia; reflexivity).
  assert (m / 10000 / 10 = m / 100000) by (rewrite Z.div_div by lia; reflexivity).
  assert (m / 100000 / 10 = 0).
  { rewrite Z.div_div by lia. apply Z.div_small. lia. }
  lia.
Qed.

Lemma decimal_digits_spec (fuel : nat) (n : Z) :
  0 ≤ n < 10 ^ Z.of_nat (S fuel) →
  all_digits (decimal_digits (S fuel) n) ∧ decimal_digits (S fuel) n ≠ [] ∧
  digits_number (decimal_digits (S fuel) n) = n.
Proof.
  revert n. induction fuel as [|fuel IH]; intros n Hn.
  - change (10 ^ Z.of_nat 1) with 10 in Hn. cbn [decimal_digits].
    destruct (Z.ltb_spec n 10); [|lia].
    destruct (digit_char_spec n ltac:(lia)) as (Hd & Hv & _).
    split; [by repeat constructor|]. split; [done|].
    rewrite (digits_number_cons _ []). rewrite Hv. cbn. lia.
  - rewrite Nat2Z.inj_succ, Z.pow_succ_r in Hn by lia.
    change (decimal_digits (S (S fuel)) n)
      with (if n <? 10 then [digit_char n]
            else decimal_digits (S fuel) (n / 10) ++ [digit_char (n mod 10)]).
    destruct (Z.ltb_spec n 10).
    + destruct (digit_char_spec n ltac:(lia)) as (Hd & Hv & _).
      split; [by repeat constructor|]. split; [done|].
      rewrite (digits_number_cons _ []). rewrite Hv. cbn. lia.
    + destruct (IH (n / 10)) as (Hall & Hne & Hnum).
      { split; [apply Z.div_pos; lia|]. apply Z.div_lt_upper_bound; lia. }
      destruct (digit_char_spec (n mod 10) ltac:(apply Z.mod_pos_bound; lia))
        as (Hd & Hv & _).
      split; [apply Forall_app; split; [done|by repeat constructor]|].
      split; [by destruct (decimal_digits (S fuel) (n / 10))|].
      rewrite digits_number_app, Hnum. rewrite (digits_number_cons _ []), Hv.
      cbn [length]. change (10 ^ Z.of_nat 1) with 10. change (10 ^ Z.of_nat 0) with 1.
      change (digits_number []) with 0.
      pose proof (Z.div_mod n 10 ltac:(lia)). lia.
Qed.

Lemma exp10_down (fuel : nat) : ∀ n d : Z,
  0 < n → 0 < d → n < 10 * d → d ≤ n * 10 ^ Z.of_nat fuel →
  exp10 fuel n d ≤ 0 ∧
  d ≤ n * 10 ^ (- exp10 fuel n d) < 10 * d.
Proof.
  induction fuel as [|fuel IH]; intros n d Hn Hd Hlt Hfuel.
  - cbn [exp10]. change (10 ^ Z.of_nat 0) with 1 in Hfuel.
    change (10 ^ (- 0)) with 1. lia.
  - cbn [exp10]. destruct (Z.ltb_spec n d) as [Hnd|Hnd].
    + destruct (IH (10 * n) d) as (He & Hlo & Hhi); [lia..| |].
      { rewrite Nat2Z.inj_succ, Z.pow_succ_r in Hfuel by lia. lia. }
      split; [lia|].
      replace (- (exp10 fuel (10 * n) d - 1)) with (Z.succ (- exp10 fuel (10 * n) d)) by lia.
      rewrite Z.pow_succ_r by lia. lia.
    + destruct (Z.leb_spec (10 * d) n); [lia|].
      change (10 ^ (- 0)) with 1. lia.
Qed.

Lemma exp10_up (fuel : nat) : ∀ n d : Z,
  0 < n → 0 < d → d ≤ n → n < 10 * d * 10 ^ Z.of_nat fuel →
  0 ≤ exp10 fuel n d ∧
  d * 10 ^ exp10 fuel n d ≤ n < 10 * d * 10 ^ exp10 fuel n d.
Proof.
  induction fuel as [|fuel IH]; intros n d Hn Hd Hle Hfuel.
  - cbn [exp10]. change (10 ^ Z.of_nat 0) with 1 in Hfuel.
    change (10 ^ 0) with 1. lia.
  - cbn [exp10]. destruct (Z.ltb_spec n d) as [Hnd|Hnd]; [lia|].
    destruct (Z.leb_spec (10 * d) n) as [Hbig|Hsmall].
    + destruct (IH n (10 * d)) as (He & Hlo & Hhi); [lia..| |].
      { rewrite Nat2Z.inj_succ, Z.pow_succ_r in Hfuel by lia. lia. }
      split; [lia|].
      rewrite Z.pow_add_r by lia. change (10 ^ 1) with 10. lia.
    + change (10 ^ 0) with 1. lia.
Qed.

Lemma lt_pow10_log2 (n : Z) (k : Z) : 0 < n → Z.log2 n + 1 ≤ k → n < 10 ^ k.
Proof.
  intros Hn Hk.
  pose proof (Z.log2_nonneg n).
  destruct (Z.log2_spec n Hn) as [_ Hhi].
  eapply Z.lt_le_trans; [exact Hhi|].
  eapply Z.le_trans; [apply (Z.pow_le_mono_r 2 _ k); lia|].
  apply Z.pow_le_mono_l. lia.
Qed.

Lemma floor_log10_spec (n d : Z) :
  0 < n → 0 < d → is_exponent n d (floor_log10 n d).
Proof.
  intros Hn Hd. unfold floor_log10, is_exponent.
  pose proof (Z.log2_nonneg n). pose proof (Z.log2_nonneg d).
  set (fuel := (Z.to_nat (Z.log2 n + Z.log2 d) + 2)%nat).
  assert (Hf : Z.of_nat fuel = Z.log2 n + Z.log2 d + 2) by (unfold fuel; lia).
  destruct (Z.lt_ge_cases n d) as [Hlt|Hge].
  - left. apply exp10_down; [lia..|].
    assert (d < 10 ^ Z.of_nat fuel) by (apply lt_pow10_log2; lia). nia.
  - right. apply exp10_up; [lia..|].
    assert (n < 10 ^ Z.of_nat fuel) by (apply lt_pow10_log2; lia). nia.
Qed.

Lemma round_half_even_spec (n d : Z) :
  0 < d → 2 * Z.abs (n - round_half_even n d * d) ≤ d.
Proof.
  intros Hd. unfold round_half_even. cbv zeta.
  pose proof (Z.div_mod n d ltac:(lia)) as Hdm.
  pose proof (Z.mod_pos_bound n d Hd) as Hr.
  destruct (Z.ltb_spec (2 * (n mod d)) d); [lia|].
  destruct (Z.ltb_spec d (2 * (n mod d))); [lia|].
  destruct (Z.even (n / d)); lia.
Qed.

Lemma round_half_even_range (n d lo hi : Z) :
  0 < d → lo * d ≤ n < hi * d → lo ≤ round_half_even n d ≤ hi.
Proof.
  intros Hd Hn. pose proof (round_half_even_spec n d Hd). nia.
Qed.

Lemma is_exponent_scaled (n d e : Z) :
  0 < n → 0 < d → is_exponent n d e →
  if 0 <=? 5 - e
  then 10 ^ 5 * d ≤ n * 10 ^ (5 - e) < 10 ^ 6 * d
  else 10 ^ 5 * (d * 10 ^ (e - 5)) ≤ n < 10 ^ 6 * (d * 10 ^ (e - 5)).
Proof.
  intros Hn Hd [(He & Hlo & Hhi)|(He & Hlo & Hhi)].
  - destruct (Z.leb_spec 0 (5 - e)); [|lia].
    replace (5 - e) with (5 + - e) by lia. rewrite Z.pow_add_r by lia.
    change (10 ^ 5) with 100000. change (10 ^ 6) with 1000000. lia.
  - destruct (Z.leb_spec 0 (5 - e)).
    + assert (Hp : 10 ^ 5 = 10 ^ e * 10 ^ (5 - e)).
      { rewrite <- Z.pow_add_r by lia. f_equal. lia. }
      assert (0 < 10 ^ (5 - e)) by (apply Z.pow_pos_nonneg; lia).
      assert (0 < 10 ^ e) by (apply Z.pow_pos_nonneg; lia).
      change (10 ^ 6) with (10 * 10 ^ 5). rewrite Hp. nia.
    + assert (Hp : 10 ^ e = 10 ^ 5 * 10 ^ (e - 5)).
      { rewrite <- Z.pow_add_r by lia. f_equal. lia. }
      change (10 ^ 6) with (10 * 10 ^ 5). rewrite Hp in Hlo, Hhi. lia.
Qed.

Lemma round_half_even_tie (n d : Z) :
  0 < d → 2 * Z.abs (n - round_half_even n d * d) = d →
  Z.even (round_half_even n d) = true.
Proof.
  intros Hd. unfold round_half_even. cbv zeta.
  pose proof (Z.div_mod n d ltac:(lia)) as Hdm.
  pose proof (Z.mod_pos_bound n d Hd) as Hr.
  destruct (Z.ltb_spec (2 * (n mod d)) d); [lia|].
  destruct (Z.ltb_spec d (2 * (n mod d))); [lia|].
  intros _. destruct (Z.even (n / d)) eqn:E; [exact E|].
  replace (n / d + 1) with (Z.succ (n / d)) by lia.
  rewrite Z.even_succ, <- Z.negb_even, E. reflexivity.
Qed.

Lemma is_exponent_scaled_fraction (n d e : Z) :
  0 < d → is_exponent n d e →
  0 < snd (scaled_fraction n d (- e)) ∧
  snd (scaled_fraction n d (- e)) ≤ fst (scaled_fraction n d (- e))
    < 10 * snd (scaled_fraction n d (- e)).
Proof.
  intros Hd. unfold scaled_fraction.
  intros [(He & Hlo & Hhi)|(He & Hlo & Hhi)].
  - destruct (Z.leb_spec 0 (- e)); [|lia]. cbn [fst snd]. lia.
  - destruct (Z.leb_spec 0 (- e)); cbn [fst snd].
    + assert (e = 0) as -> by lia. change (10 ^ (- 0)) with 1.
      change (10 ^ 0) with 1 in Hlo, Hhi. lia.
    + rewrite Z.opp_involutive.
      assert (0 < 10 ^ e) by (apply Z.pow_pos_nonneg; lia). nia.
Qed.

Lemma sig6_cases (n d m' e' : Z) :
  0 < n → 0 < d → sig6 n d = (m', e') →
  ∃ e0 m0,
    is_exponent n d e0 ∧
    0 < snd (scaled_fraction n d (5 - e0)) ∧
    2 * Z.abs (fst (scaled_fraction n d (5 - e0))
               - m0 * snd (scaled_fraction n d (5 - e0)))
      ≤ snd (scaled_fraction n d (5 - e0)) ∧
    (2 * Z.abs (fst (scaled_fraction n d (5 - e0))
                - m0 * snd (scaled_fraction n d (5 - e0)))
       = snd (scaled_fraction n d (5 - e0)) → Z.even m0 = true) ∧
    ((m' = m0 ∧ e' = e0 ∧ 10 ^ 5 ≤ m0 < 10 ^ 6) ∨
     (m0 = 10 ^ 6 ∧ m' = 10 ^ 5 ∧ e' = e0 + 1)).
Proof.
  intros Hn Hd. unfold sig6. cbv zeta.
  pose proof (floor_log10_spec n d Hn Hd) as Hexp.
  pose proof (is_exponent_scaled n d _ Hn Hd Hexp) as Hs.
  set (e0 := floor_log10 n d) in *.
  assert (Hsf : ∃ N D, scaled_fraction n d (5 - e0) = (N, D) ∧ 0 < D ∧
            10 ^ 5 * D ≤ N < 10 ^ 6 * D ∧
            (if 0 <=? 5 - e0 then round_half_even (n * 10 ^ (5 - e0)) d
             else round_half_even n (d * 10 ^ (e0 - 5))) = round_half_even N D).
  { unfold scaled_fraction. destruct (Z.leb_spec 0 (5 - e0)).
    - exists (n * 10 ^ (5 - e0)), d. done.
    - replace (- (5 - e0)) with (e0 - 5) by lia.
      exists n, (d * 10 ^ (e0 - 5)). split; [done|]. split; [|done].
      apply Z.mul_pos_pos; [lia|]. apply Z.pow_pos_nonneg; lia. }
  destruct Hsf as (N & D & HND & HD & Hrange & ->).
  pose proof (round_half_even_spec N D HD) as Herr.
  pose proof (round_half_even_tie N D HD) as Htie.
  pose proof (round_half_even_range N D _ _ HD Hrange) as Hm.
  set (m0 := round_half_even N D) in *.
  intros Hres. exists e0, m0. rewrite HND. cbn [fst snd].
  split; [exact Hexp|]. split; [exact HD|]. split; [exact Herr|].
  split; [exact Htie|].
  destruct (Z.eqb_spec m0 (10 ^ 6)) as [Hc|Hc]; injection Hres as <- <-.
  - right. done.
  - left. split; [done|]. split; [done|]. lia.
Qed.

End LabelDigits.

Lemma split_at_absent (c : ascii) (l : list ascii) :
  c ∉ l → split_at c l = (l, None).
Proof.
  induction l as [|x l IH]; [reflexivity|].
  intros [Hx Hl]%not_elem_of_cons. cbn [split_at].
  destruct (Ascii.eqb_spec x c) as [->|_]; [done|]. by rewrite IH.
Qed.

Lemma split_at_first (c : ascii) (l1 l2 : list ascii) :
  c ∉ l1 → split_at c (l1 ++ c :: l2) = (l1, Some l2).
Proof.
  induction l1 as [|x l1 IH]; cbn [app split_at].
  - intros _. by rewrite Ascii.eqb_refl.
  - intros [Hx Hl]%not_elem_of_cons.
    destruct (Ascii.eqb_spec x c) as [->|_]; [done|]. by rewrite IH.
Qed.

Lemma all_digits_not_elem (c : ascii) (l : list ascii) :
  is_digit c = false → all_digits l → c ∉ l.
Proof.
  intros Hc Hl Hin. unfold all_digits in Hl. rewrite Forall_forall in Hl.
  specialize (Hl c Hin). congruence.
Qed.

Lemma pow10_pos (k : Z) : (0 ≤ k)%Z → (0 < 10 ^ k)%Z.
Proof. intros Hk. apply Z.pow_pos_nonneg; lia. Qed.

Lemma Qdiv_inject_eq (a b c d : Z) :
  (0 < b)%Z → (0 < d)%Z → (a * d = c * b)%Z →
  inject_Z a / inject_Z b == inject_Z c / inject_Z d.
Proof.
  intros Hb Hd Heq.
  destruct b as [|b|b]; try lia. destruct d as [|d|d]; try lia.
  unfold Qeq, Qdiv, Qmult, Qinv, inject_Z. cbn [Qnum Qden]. lia.
Qed.

Lemma point_chars_split (int_part frac : list ascii) :
  all_digits int_part → all_digits frac →
  split_at "." (int_part ++ point_chars frac) = (int_part, written_fraction frac).
Proof.
  intros Hi Hf. unfold point_chars, written_fraction.
  destruct (rstrip0 frac) as [|c frac'] eqn:E.
  - rewrite app_nil_r. apply split_at_absent. by apply all_digits_not_elem.
  - apply split_at_first. by apply all_digits_not_elem.
Qed.

Lemma point_chars_no_e (int_part frac : list ascii) :
  all_digits int_part → all_digits frac →
  "e"%char ∉ int_part ++ point_chars frac.
Proof.
  intros Hi Hf. rewrite not_elem_of_app. split.
  - by apply all_digits_not_elem.
  - unfold point_chars. pose proof (rstrip0_all_digits frac Hf) as Hs.
    destruct (rstrip0 frac) as [|c frac']; [apply not_elem_of_nil|].
    rewrite not_elem_of_cons. split; [discriminate|].
    by apply all_digits_not_elem.
Qed.

Lemma fraction_literal_written (frac : list ascii) :
  all_digits frac →
  ∃ f, fraction_literal (written_fraction frac) = Ok f ∧
       f == inject_Z (digits_number frac) / inject_Z (10 ^ Z.of_nat (length frac)).
Proof.
  intros Hf. pose proof (rstrip0_all_digits frac Hf) as Hs.
  pose proof (rstrip0_number frac) as Hn.
  unfold written_fraction.
  destruct (rstrip0 frac) as [|c frac'] eqn:E.
  - exists 0. split; [reflexivity|].
    rewrite (rstrip0_nil_number frac E). unfold Qdiv. by rewrite Qmult_0_l.
  - eexists. split.
    + unfold fraction_literal, mbind, result_bind.
      rewrite digits_value_digits by done. reflexivity.
    + apply Qdiv_inject_eq; [apply pow10_pos; lia..|]. lia.
Qed.

Lemma unsigned_literal_fixed (int_part frac : list ascii) :
  all_digits int_part → int_part ≠ [] → all_digits frac →
  ∃ w, unsigned_literal (int_part ++ point_chars frac) = Ok w ∧
       w == mantissa_value int_part frac.
Proof.
  intros Hi Hne Hf. unfold unsigned_literal.
  rewrite split_at_absent by (by apply point_chars_no_e).
  rewrite point_chars_split by done.
  rewrite digits_value_digits by done.
  destruct (fraction_literal_written frac Hf) as (f & -> & Hfeq).
  eexists. split; [reflexivity|].
  unfold mantissa_value. rewrite Hfeq. change (10 ^ 0) with 1. ring.
Qed.

Lemma exponent_digits_value (e : Z) :
  digits_value (if (Z.abs e <? 10)%Z then ["0"%char; digit_char (Z.abs e)]
                else decimal_digits (S (Z.to_nat (Z.log2 (Z.abs e)))) (Z.abs e))
  = Ok (Z.abs e).
Proof.
  destruct (Z.ltb_spec (Z.abs e) 10).
  - rewrite digits_value_digits.
    + f_equal. unfold digits_number. cbn [fold_left].
      rewrite digit_char_value by lia. reflexivity.
    + repeat constructor. apply digit_char_is_digit. lia.
    + done.
  - destruct (decimal_digits_spec (Z.to_nat (Z.log2 (Z.abs e))) (Z.abs e))
      as (Hall & Hne & Hnum).
    { split; [lia|].
      assert (0 < Z.abs e)%Z by lia.
      pose proof (Z.log2_nonneg (Z.abs e)).
      destruct (Z.log2_spec (Z.abs e)) as [_ Hhi]; [lia|].
      eapply Z.lt_le_trans; [exact Hhi|].
      rewrite Nat2Z.inj_succ, Z2Nat.id by lia.
      apply Z.pow_le_mono_l. lia. }
    rewrite digits_value_digits by done. by rewrite Hnum.
Qed.

Lemma exponent_literal_chars (e : Z) (rest : list ascii) :
  exponent_chars e = "e"%char :: rest → exponent_literal (Some rest) = Ok e.
Proof.
  unfold exponent_chars. pose proof (exponent_digits_value e) as Hds.
  set (ds := if (Z.abs e <? 10)%Z then _ else _) in *.
  intros [= <-].
  unfold exponent_literal. destruct (Z.ltb_spec e 0).
  - unfold mbind, result_bind. rewrite Hds. f_equal. lia.
  - rewrite Hds. f_equal. lia.
Qed.

Lemma unsigned_literal_scientific (int_part frac : list ascii) (e : Z) :
  all_digits int_part → int_part ≠ [] → all_digits frac →
  ∃ w, unsigned_literal (int_part ++ point_chars frac ++ exponent_chars e) = Ok w ∧
       w == mantissa_value int_part frac * 10 ^ e.
Proof.
  intros Hi Hne Hf. unfold unsigned_literal.
  destruct (exponent_chars e) as [|c rest] eqn:Hex; [discriminate|].
  assert (c = "e"%char) as -> by (unfold exponent_chars in Hex; congruence).
  rewrite app_assoc, split_at_first by (by apply point_chars_no_e).
  rewrite point_chars_split by done.
  rewrite digits_value_digits by done.
  destruct (fraction_literal_written frac Hf) as (f & -> & Hfeq).
  rewrite (exponent_literal_chars e rest Hex).
  eexists. split; [reflexivity|].
  unfold mantissa_value. by rewrite Hfeq.
Qed.

Lemma Qpow10_nonneg (k : Z) : (0 ≤ k)%Z → 10 ^ k == inject_Z (10 ^ k).
Proof. intros Hk. symmetry. exact (Zpower_Qpower 10 k Hk). Qed.

Lemma Qpow10_neg (k : Z) : (k ≤ 0)%Z → 10 ^ k == / inject_Z (10 ^ (- k)).
Proof.
  intros Hk. rewrite <- (Z.opp_involutive k) at 1.
  rewrite Qpower_opp, Qpow10_nonneg by lia. reflexivity.
Qed.

Lemma Qpow10_plus (a b : Z) : 10 ^ (a + b) == 10 ^ a * 10 ^ b.
Proof. apply Qpower_plus. discriminate. Qed.

Lemma mantissa_value_app (int_part frac : list ascii) :
  mantissa_value int_part frac
  == inject_Z (digits_number (int_part ++ frac))
     * 10 ^ (- Z.of_nat (length frac)).
Proof.
  unfold mantissa_value. rewrite digits_number_app.
  rewrite Qpow10_neg by lia. rewrite Z.opp_involutive.
  pose proof (pow10_pos (Z.of_nat (length frac)) ltac:(lia)) as Hp.
  destruct (10 ^ Z.of_nat (length frac))%Z as [|p|p] eqn:E; try lia.
  unfold Qeq, Qdiv, Qplus, Qmult, Qinv, inject_Z. cbn [Qnum Qden].
  rewrite !Pos2Z.inj_mul. ring.
Qed.

Lemma scaled_fraction_Q (n : Z) (p : positive) (k : Z) :
  (n # p) * 10 ^ k
  == inject_Z (fst (scaled_fraction n (Z.pos p) k))
     / inject_Z (snd (scaled_fraction n (Z.pos p) k)).
Proof.
  unfold scaled_fraction. destruct (Z.leb_spec 0 k) as [Hk|Hk]; cbn [fst snd].
  - rewrite Qpow10_nonneg by done.
    unfold Qeq, Qdiv, Qmult, Qinv, inject_Z. cbn [Qnum Qden].
    rewrite !Pos2Z.inj_mul. ring.
  - rewrite Qpow10_neg by lia.
    pose proof (pow10_pos (- k) ltac:(lia)) as Hp.
    destruct (10 ^ (- k))%Z as [|q|q] eqn:E; try lia.
    change (Z.pos p * Z.pos q)%Z with (Z.pos (p * q)).
    unfold Qeq, Qdiv, Qmult, Qinv, inject_Z. cbn [Qnum Qden].
    rewrite !Pos2Z.inj_mul. ring.
Qed.

Lemma fraction_bounds (N D : Z) :
  (0 < D)%Z → (D ≤ N < 10 * D)%Z →
  1 <= inject_Z N / inject_Z D ∧ inject_Z N / inject_Z D < 10.
Proof.
  intros HD HN. destruct D as [|D|D]; try lia.
  unfold Qle, Qlt, Qdiv, Qmult, Qinv, inject_Z. cbn [Qnum Qden]. lia.
Qed.

Lemma fraction_nearest (N D m : Z) :
  (0 < D)%Z →
  (Qabs (inject_Z N / inject_Z D - inject_Z m) <= 1 # 2
   ↔ (2 * Z.abs (N - m * D) ≤ D)%Z) ∧
  (Qabs (inject_Z N / inject_Z D - inject_Z m) == 1 # 2
   ↔ (2 * Z.abs (N - m * D) = D)%Z).
Proof.
  intros HD. destruct D as [|D|D]; try lia.
  unfold Qle, Qeq, Qabs, Qminus, Qplus, Qopp, Qdiv, Qmult, Qinv, inject_Z.
  cbn [Qnum Qden]. rewrite !Pos2Z.inj_mul. split; split; lia.
Qed.

Lemma sig6_rounds (n : Z) (p : positive) (m' e' : Z) :
  (0 < n)%Z → sig6 n (Z.pos p) = (m', e') →
  (10 ^ 5 ≤ m' < 10 ^ 6)%Z ∧
  rounded_to_six_digits (n # p) (inject_Z m' * 10 ^ (e' - 5)).
Proof.
  intros Hn Hsig.
  destruct (sig6_cases n (Z.pos p) m' e' Hn (Pos2Z.is_pos p) Hsig)
    as (e0 & m0 & Hexp & HD & Herr & Htie & Hcases).
  destruct (is_exponent_scaled_fraction n (Z.pos p) e0 (Pos2Z.is_pos p) Hexp)
    as (HD' & Hbounds).
  split.
  { destruct Hcases as [(-> & _ & Hm)|(_ & -> & _)]; [exact Hm|].
    change (10 ^ 5)%Z with 100000%Z. change (10 ^ 6)%Z with 1000000%Z. lia. }
  exists e0, m0.
  rewrite !scaled_fraction_Q.
  destruct (fraction_bounds _ _ HD' Hbounds) as [Hlo Hhi].
  destruct (fraction_nearest (fst (scaled_fraction n (Z.pos p) (5 - e0)))
              (snd (scaled_fraction n (Z.pos p) (5 - e0))) m0 HD)
    as [Hnear Hhalf].
  split; [exact Hlo|]. split; [exact Hhi|]. split.
  - rewrite <- Qmult_assoc, <- Qpow10_plus.
    destruct Hcases as [(-> & -> & _)|(-> & -> & ->)].
    + replace (e0 - 5 + (5 - e0))%Z with 0%Z by lia. change (10 ^ 0) with 1. ring.
    + replace (e0 + 1 - 5 + (5 - e0))%Z with 1%Z by lia. reflexivity.
  - split; [by apply Hnear|]. intros H. apply Htie. by apply Hhalf.
Qed.

Lemma all_digits_zeros (j : nat) : all_digits (replicate j "0"%char).
Proof. induction j; constructor; done. Qed.

Lemma digits_number_zeros (j : nat) (l : list ascii) :
  digits_number (replicate j "0"%char ++ l) = digits_number l.
Proof.
  induction j as [|j IH]; [reflexivity|].
  cbn [replicate app]. rewrite digits_number_cons, IH.
  change (char_value "0") with 0%Z. lia.
Qed.

Lemma g_chars_form (n d m' e' : Z) :
  sig6 n d = (m', e') → (10 ^ 5 ≤ m' < 10 ^ 6)%Z →
  ∃ int_part frac,
    all_digits int_part ∧ int_part ≠ [] ∧ all_digits frac ∧
    g_chars n d = int_part ++ point_chars frac
                    ++ (if fixed_notation e' then [] else exponent_chars e') ∧
    mantissa_value int_part frac
    == inject_Z m' * 10 ^ (if fixed_notation e' then e' - 5 else - 5).
Proof.
  intros Hsig Hm. unfold g_chars. rewrite Hsig. fold (fixed_notation e').
  pose proof (digits_of_all_digits m') as Hds.
  pose proof (digits_of_number m' ltac:(lia)) as Hnum.
  pose proof (digits_of_length m') as Hlen.
  destruct (fixed_notation e') eqn:Hfix.
  - unfold fixed_notation in Hfix. apply andb_prop in Hfix as [H1 H2].
    apply Z.leb_le in H1. apply Z.ltb_lt in H2.
    destruct (Z.leb_spec 0 e') as [He|He].
    + exists (take (Z.to_nat (e' + 1)) (digits_of m')),
             (drop (Z.to_nat (e' + 1)) (digits_of m')).
      split; [by apply Forall_take|]. split.
      { intros H%(f_equal length). rewrite length_take, Hlen in H. cbn in H. lia. }
      split; [by apply Forall_drop|]. split; [by rewrite app_nil_r|].
      rewrite mantissa_value_app, take_drop, Hnum, length_drop, Hlen.
      replace (- Z.of_nat (6 - Z.to_nat (e' + 1)))%Z with (e' - 5)%Z by lia.
      reflexivity.
    + exists ["0"%char], (replicate (Z.to_nat (- e' - 1)) "0"%char ++ digits_of m').
      split; [by repeat constructor|]. split; [done|].
      split; [apply Forall_app; split; [apply all_digits_zeros|done]|].
      split; [by rewrite app_nil_r|].
      rewrite mantissa_value_app.
      change (["0"%char] ++ ?l) with (replicate 1 "0"%char ++ l).
      rewrite !digits_number_zeros, Hnum, length_app, length_replicate, Hlen.
      replace (- Z.of_nat (Z.to_nat (- e' - 1) + 6))%Z with (e' - 5)%Z by lia.
      reflexivity.
  - exists (take 1 (digits_of m')), (drop 1 (digits_of m')).
    split; [by apply Forall_take|]. split; [done|].
    split; [by apply Forall_drop|]. split; [reflexivity|].
    rewrite mantissa_value_app, take_drop, Hnum, length_drop, Hlen.
    reflexivity.
Qed.

Lemma last_digit_not_point (l : list ascii) :
  all_digits l → last l ≠ Some "."%char.
Proof.
  intros Hl Hlast. apply last_Some_elem_of in Hlast.
  by apply (all_digits_not_elem "." l).
Qed.

Lemma rstrip0_last (l : list ascii) : last (rstrip0 l) ≠ Some "0"%char.
Proof.
  induction l as [|c rest IH]; [discriminate|].
  cbn [rstrip0]. destruct (rstrip0 rest) as [|c' rest'] eqn:E.
  - destruct (Ascii.eqb c "0") eqn:Hc; [discriminate|].
    cbn. intros [= ->]. by rewrite Ascii.eqb_refl in Hc.
  - rewrite last_cons_cons. exact IH.
Qed.

Lemma mantissa_last (int_part frac : list ascii) :
  all_digits int_part → int_part ≠ [] → all_digits frac →
  last (int_part ++ point_chars frac) ≠ Some "."%char ∧
  ("."%char ∈ int_part ++ point_chars frac →
   last (int_part ++ point_chars frac) ≠ Some "0"%char).
Proof.
  intros Hi Hne Hf. unfold point_chars.
  pose proof (rstrip0_all_digits frac Hf) as Hs.
  pose proof (rstrip0_last frac) as Hl.
  destruct (rstrip0 frac) as [|c frac'] eqn:E.
  - rewrite app_nil_r. split; [by apply last_digit_not_point|].
    intros Hin. by apply (all_digits_not_elem "." int_part) in Hin.
  - assert (Hlast : last (int_part ++ "."%char :: c :: frac') = last (c :: frac')).
    { rewrite (last_app_cons int_part). by rewrite last_cons_cons. }
    rewrite Hlast. split; [by apply last_digit_not_point|]. intros _. exact Hl.
Qed.

Lemma written_number (int_part frac : list ascii) (fixed : bool) (e : Z) :
  all_digits int_part → int_part ≠ [] → all_digits frac →
  let l := int_part ++ point_chars frac
             ++ (if fixed then [] else exponent_chars e) in
  (∃ w, unsigned_literal l = Ok w ∧
        w == mantissa_value int_part frac * 10 ^ (if fixed then 0 else e)) ∧
  (∃ c rest, l = c :: rest ∧ is_digit c = true) ∧
  ("e"%char ∈ l ↔ fixed = false) ∧
  fst (split_at "e" l) = int_part ++ point_chars frac.
Proof.
  intros Hi Hne Hf l. subst l.
  pose proof (point_chars_no_e int_part frac Hi Hf) as Hno.
  split; [|split; [|split]].
  - destruct fixed.
    + rewrite app_nil_r.
      destruct (unsigned_literal_fixed int_part frac Hi Hne Hf) as (w & Hw & Heq).
      exists w. split; [exact Hw|]. rewrite Heq. change (10 ^ 0) with 1. ring.
    + apply unsigned_literal_scientific; assumption.
  - destruct int_part as [|c rest]; [done|].
    exists c. eexists. split; [reflexivity|]. by inversion Hi.
  - destruct fixed.
    + rewrite app_nil_r. split; [done|discriminate].
    + split; [done|]. intros _. rewrite app_assoc. apply elem_of_app. right.
      unfold exponent_chars. apply list_elem_of_here.
  - destruct fixed.
    + rewrite app_nil_r. by rewrite split_at_absent.
    + unfold exponent_chars. rewrite app_assoc. by rewrite split_at_first.
Qed.

Lemma fixed_notation_range (m' e' : Z) (w : Q) :
  (10 ^ 5 ≤ m' < 10 ^ 6)%Z → w == inject_Z m' * 10 ^ (e' - 5) →
  (fixed_notation e' = false ↔ ¬ (1 # 10000 <= w ∧ w < 1000000)).
Proof.
  intros Hm ->. change (inject_Z m') with (m' # 1).
  rewrite scaled_fraction_Q. unfold scaled_fraction, fixed_notation.
  change (10 ^ 5)%Z with 100000%Z in Hm. change (10 ^ 6)%Z with 1000000%Z in Hm.
  destruct (Z.leb_spec 0 (e' - 5)) as [He|He]; cbn [fst snd].
  - (* e' >= 5 *)
    assert (Hq : ∀ N : Z, (1 # 10000 <= inject_Z N / inject_Z 1 ∧
                           inject_Z N / inject_Z 1 < 1000000)
                          ↔ (1 ≤ 10000 * N ∧ N < 1000000)%Z).
    { intros N. unfold Qle, Qlt, Qdiv, Qmult, Qinv, inject_Z. cbn [Qnum Qden]. lia. }
    rewrite Hq.
    destruct (Z.eq_dec e' 5%Z) as [->|Hne].
    + change (10 ^ (5 - 5))%Z with 1%Z. cbn. split; [discriminate|lia].
    + assert (10 * 10 ^ 0 ≤ 10 ^ (e' - 5))%Z.
      { rewrite <- Z.pow_succ_r by lia. apply Z.pow_le_mono_r; lia. }
      change (10 ^ 0)%Z with 1%Z in *.
      destruct (Z.leb_spec (-4) e'); [|lia]. destruct (Z.ltb_spec e' 6); [lia|].
      cbn. split; [nia|done].
  - (* e' < 5 *)
    replace (- (e' - 5))%Z with (5 - e')%Z by lia.
    pose proof (pow10_pos (5 - e') ltac:(lia)) as Hp.
    assert (Hq : ∀ N D : Z, (0 < D)%Z →
               (1 # 10000 <= inject_Z N / inject_Z D ∧
                inject_Z N / inject_Z D < 1000000)
               ↔ (D ≤ 10000 * N ∧ N < 1000000 * D)%Z).
    { intros N D HD. destruct D as [|D|D]; try lia.
      unfold Qle, Qlt, Qdiv, Qmult, Qinv, inject_Z. cbn [Qnum Qden]. lia. }
    rewrite Z.mul_1_l, Hq by done.
    destruct (Z.ltb_spec e' 6); [|lia]. rewrite andb_true_r.
    destruct (Z.leb_spec (-4) e').
    + assert (10 ^ (5 - e') ≤ 10 ^ 9)%Z by (apply Z.pow_le_mono_r; lia).
      change (10 ^ 9)%Z with 1000000000%Z in *. split; [discriminate|nia].
    + assert (10 ^ 10 ≤ 10 ^ (5 - e'))%Z by (apply Z.pow_le_mono_r; lia).
      change (10 ^ 10)%Z with 10000000000%Z in *. split; [nia|done].
Qed.

Lemma rounded_to_six_digits_proper (v v' w w' : Q) :
  v == v' → w == w' →
  rounded_to_six_digits v w → rounded_to_six_digits v' w'.
Proof.
  intros Hv Hw (e & m & H1 & H2 & H3 & H4 & H5).
  exists e, m. rewrite <- Hv, <- Hw. done.
Qed.

Lemma Qpow10_pos (k : Z) : 0 < 10 ^ k.
Proof. apply Qpower_0_lt. reflexivity. Qed.

Lemma g_chars_spec (n : Z) (p : positive) :
  (0 < n)%Z →
  ∃ w mantissa,
    unsigned_literal (g_chars n (Z.pos p)) = Ok w ∧ 0 < w ∧
    rounded_to_six_digits (n # p) w ∧
    (∃ c rest, g_chars n (Z.pos p) = c :: rest ∧ is_digit c = true) ∧
    ("e"%char ∈ g_chars n (Z.pos p) ↔ ¬ (1 # 10000 <= w ∧ w < 1000000)) ∧
    fst (split_at "e" (g_chars n (Z.pos p))) = mantissa ∧ mantissa ≠ [] ∧
    last mantissa ≠ Some "."%char ∧
    ("."%char ∈ mantissa → last mantissa ≠ Some "0"%char).
Proof.
  intros Hn. destruct (sig6 n (Z.pos p)) as [m' e'] eqn:Hsig.
  destruct (sig6_rounds n p m' e' Hn Hsig) as [Hm Hround].
  destruct (g_chars_form n (Z.pos p) m' e' Hsig Hm)
    as (int_part & frac & Hi & Hne & Hf & Hform & Hval).
  destruct (written_number int_part frac (fixed_notation e') e' Hi Hne Hf)
    as ((w & Hw & Hweq) & Hfirst & He & Hmant).
  destruct (mantissa_last int_part frac Hi Hne Hf) as [Hl1 Hl2].
  rewrite <- Hform in Hw, Hfirst, He, Hmant.
  assert (Hwval : w == inject_Z m' * 10 ^ (e' - 5)).
  { rewrite Hweq, Hval, <- Qmult_assoc, <- Qpow10_plus.
    destruct (fixed_notation e'); [|replace (-5 + e')%Z with (e' - 5)%Z by lia];
      [replace (e' - 5 + 0)%Z with (e' - 5)%Z by lia|]; reflexivity. }
  exists w, (int_part ++ point_chars frac).
  split; [exact Hw|]. split.
  { rewrite Hwval. apply Qmult_lt_0_compat; [|apply Qpow10_pos].
    unfold Qlt, inject_Z. cbn [Qnum Qden].
    change (10 ^ 5)%Z with 100000%Z in Hm. lia. }
  split.
  { eapply rounded_to_six_digits_proper; [reflexivity| |exact Hround]. by symmetry. }
  split; [exact Hfirst|]. split.
  { rewrite He. apply (fixed_notation_range m' e' w Hm Hwval). }
  split; [exact Hmant|]. split; [by destruct int_part|]. done.
Qed.

Lemma decimal_literal_unsigned (c : ascii) (rest : list ascii) :
  is_digit c = true →
  decimal_literal (String.string_of_list_ascii (c :: rest))
  = unsigned_literal (c :: rest).
Proof.
  intros Hc. unfold decimal_literal.
  rewrite String.list_ascii_of_string_of_list_ascii.
  destruct c as [[] [] [] [] [] [] [] []]; try discriminate Hc; reflexivity.
Qed.

Lemma finite_value_fraction (m : positive) (e : Z) :
  ∃ (n : Z) (p : positive),
    (0 < n)%Z ∧ finite_value m e == n # p ∧
    (if (0 <=? e)%Z then g_chars (Z.pos m * 2 ^ e) 1 else g_chars (Z.pos m) (2 ^ (- e)))
    = g_chars n (Z.pos p).
Proof.
  unfold finite_value. destruct (Z.leb_spec 0 e) as [He|He].
  - exists (Z.pos m * 2 ^ e)%Z, 1%positive.
    assert (0 < 2 ^ e)%Z by (apply Z.pow_pos_nonneg; lia).
    split; [lia|]. split; [|reflexivity].
    rewrite <- (Zpower_Qpower 2 e He), <- inject_Z_mult. reflexivity.
  - assert (Hp : (0 < 2 ^ (- e))%Z) by (apply Z.pow_pos_nonneg; lia).
    destruct (2 ^ (- e))%Z as [|q|q] eqn:E; try lia.
    exists (Z.pos m), q. split; [lia|]. split; [|reflexivity].
    rewrite <- (Z.opp_involutive e) at 1.
    rewrite Qpower_opp, <- (Zpower_Qpower 2 (- e)) by lia. rewrite E.
    unfold Qeq, Qmult, Qinv, inject_Z. cbn [Qnum Qden]. lia.
Qed.

Lemma format_g_general (x : spec_float) : general_format x (format_g x).
Proof.
  destruct x as [s|s| |s m e]; try (destruct s; reflexivity); [reflexivity|].
  unfold general_format, format_g, mantissa_chars.
  destruct (finite_value_fraction m e) as (n & p & Hn & Hv & ->).
  destruct (g_chars_spec n p Hn)
    as (w & mantissa & Hw & Hpos & Hround & (c & rest & Hg & Hc) & He & Hmant
        & Hne & Hl1 & Hl2).
  rewrite String.list_ascii_of_string_of_list_ascii.
  assert (Hround' : rounded_to_six_digits (inject_Z (Z.pos m) * 2 ^ e) w).
  { eapply rounded_to_six_digits_proper; [|reflexivity|exact Hround]. by symmetry. }
  destruct s; cbn [sign_chars app].
  - exists (- w). split.
    { unfold decimal_literal.
      change (String.list_ascii_of_string
                (String.string_of_list_ascii ("-"%char :: g_chars n (Z.pos p))))
        with (String.list_ascii_of_string
                (String.String "-" (String.string_of_list_ascii (g_chars n (Z.pos p))))).
      cbn [String.list_ascii_of_string].
      rewrite String.list_ascii_of_string_of_list_ascii, Hw. reflexivity. }
    assert (Habs : Qabs (- w) == w).
    { rewrite Qabs_opp. apply Qabs.Qabs_pos. by apply Qlt_le_weak. }
    split.
    { rewrite <- (Qopp_involutive 0). apply Qopp_lt_compat. exact Hpos. }
    split.
    { eapply rounded_to_six_digits_proper; [reflexivity| |exact Hround'].
      by symmetry. }
    split.
    { rewrite Habs, <- He. rewrite elem_of_cons. split; [|by right].
      intros [H|H]; [discriminate H|exact H]. }
    change (split_at "e" ("-"%char :: g_chars n (Z.pos p)))
      with (let '(before, after) := split_at "e" (g_chars n (Z.pos p)) in
            ("-"%char :: before, after)).
    destruct (split_at "e" (g_chars n (Z.pos p))) as [before after].
    cbn [fst] in *. subst before.
    destruct mantissa as [|c' mantissa']; [done|].
    rewrite last_cons_cons. split; [exact Hl1|].
    intros [H|H]%elem_of_cons; [discriminate H|by apply Hl2].
  - exists w. split.
    { rewrite Hg, decimal_literal_unsigned by done. by rewrite <- Hg. }
    assert (Habs : Qabs w == w) by (apply Qabs.Qabs_pos; by apply Qlt_le_weak).
    split; [exact Hpos|]. split.
    { eapply rounded_to_six_digits_proper; [reflexivity| |exact Hround'].
      by symmetry. }
    split; [by rewrite Habs|]. rewrite Hmant. done.
Qed.

(** C8 (as amended): the label of an x-axis tick [x] is the general-format
    rendering of the float quotient [x / 1000], followed by [km].  For a
    finite non-zero quotient that rendering is a decimal literal denoting
    the quotient rounded to six significant digits (to nearest, ties to
    even), in scientific notation exactly when the rounded value is outside
    [1e-4, 1e6), with no trailing zero after the point and no bare point;
    zeros, infinities and NaN are written [0], [-0], [inf], [-inf], [nan].
    The number of decimals is whatever remains of the six digits, not one. *)
Theorem km_label_general_format (x : spec_float) :
  ∃ body,
    km_label x = body +:+ "km" ∧
    general_format (SFdiv 53 1024 x (binary_normalize 53 1024 1000 0 false)) body.
Proof.
  exists (format_g (float_div x (float_of_Z 1000))).
  split; [reflexivity|]. apply format_g_general.
Qed.

Example km_label_1500 : km_label (float_of_Z 1500) = "1.5km".
Proof. reflexivity. Qed.

Example km_label_big : km_label (float_of_Z 1234567) = "1234.57km".
Proof. reflexivity. Qed.

(** The quotient is rounded as a float before it is formatted: 1234.565 is
    not a float, the float nearest to it lies above, and the label rounds
    up. *)
Example km_label_quotient : km_label (float_of_Z 1234565) = "1234.57km".
Proof. reflexivity. Qed.

(** A tie of the exact value goes to the even digit: 100000.5 and 100001.5. *)
Example m_label_ties :
  m_label (binary_normalize prec emax 200001 (-1) false) = "100000m" ∧
  m_label (binary_normalize prec emax 200003 (-1) false) = "100002m".
Proof. split; reflexivity. Qed.

Example m_label_100 : m_label (float_of_Z 100) = "100m".
Proof. reflexivity. Qed.

Example label_special_values :
  km_label (S754_zero true) = "-0km" ∧ m_label (S754_infinity false) = "infm" ∧
  m_label S754_nan = "nanm" ∧ m_label (S754_finite false 1 (-1074)) = "4.94066e-324m".
Proof. repeat split; reflexivity. Qed.

(** C8 (as stated) fails: the tick at 1000 m is labelled [1km], with no
    decimal, and the tick at 1250 m is labelled [1.25km], with two. *)
Lemma km_label_not_one_decimal :
  km_label (float_of_Z 1000) = "1km" ∧
  one_decimal_km (km_label (float_of_Z 1000)) = false ∧
  km_label (float_of_Z 1250) = "1.25km" ∧
  one_decimal_km (km_label (float_of_Z 1250)) = false ∧
  one_decimal_km "1.0km" = true.
Proof. repeat split; reflexivity. Qed.

(** * Further properties of the scripts *)

(** ** Selection *)

Lemma py_getitem_from_end {A} (l : list A) (i : Z) :
  (- Z.of_nat (length l) ≤ i < 0)%Z →
  py_getitem l i = py_getitem l (i + Z.of_nat (length l)).
Proof.
  intros Hi. unfold py_getitem. cbv zeta.
  assert (H1 : (i <? 0)%Z = true) by (apply Z.ltb_lt; lia).
  assert (H2 : (i + Z.of_nat (length l) <? 0)%Z = false) by (apply Z.ltb_ge; lia).
  by rewrite H1, !H2.
Qed.

Lemma py_getitem_elem_of {A} (l : list A) (i : Z) (a : A) :
  py_getitem l i = Ok a → a ∈ l.
Proof.
  intros [_ Ha]%py_getitem_Ok_inv. by eapply list_elem_of_lookup_2.
Qed.

Lemma py_getitem_lookup {A} (l : list A) (i : Z) :
  (0 ≤ i)%Z →
  py_getitem l i = match l !! Z.to_nat i with
                   | Some a => Ok a
                   | None => Raise IndexError
                   end.
Proof.
  intros Hi. destruct (l !! Z.to_nat i) as [a|] eqn:Ha.
  - by apply py_getitem_nonneg.
  - apply lookup_ge_None in Ha. apply py_getitem_out_of_range. lia.
Qed.

(** X1: indices inside [-len <= i < len] always select.  A track index in
    range picks a track of the document, and with a segment index in range
    for that track the selection succeeds with one of its segments. *)
Theorem selection_in_range_succeeds gpx track segment :
  (- Z.of_nat (length (tracks gpx)) ≤ track < Z.of_nat (length (tracks gpx)))%Z →
  ∃ track_data,
    py_getitem (tracks gpx) track = Ok track_data ∧ track_data ∈ tracks gpx ∧
    ((- Z.of_nat (length (segments track_data)) ≤ segment
       < Z.of_nat (length (segments track_data)))%Z →
     ∃ segment_data,
       select gpx track segment = Ok segment_data ∧
       segment_data ∈ segments track_data).
Proof.
  intros Ht. destruct (py_getitem_in_range _ _ Ht) as [track_data Htd].
  exists track_data. split; [exact Htd|]. split; [by eapply py_getitem_elem_of|].
  intros Hs. destruct (py_getitem_in_range _ _ Hs) as [segment_data Hsd].
  exists segment_data. split; [|by eapply py_getitem_elem_of].
  unfold select, mbind, result_bind. by rewrite Htd.
Qed.

Lemma selection_in_range_succeeds_witness :
  ∃ track_data,
    py_getitem (tracks example_gpx) (-1) = Ok track_data ∧
    track_data ∈ tracks example_gpx ∧
    ((- Z.of_nat (length (segments track_data)) ≤ 0
       < Z.of_nat (length (segments track_data)))%Z →
     ∃ segment_data,
       select example_gpx (-1) 0 = Ok segment_data ∧
       segment_data ∈ segments track_data).
Proof.
  apply (selection_in_range_succeeds example_gpx (-1) 0). simpl. lia.
Defined.

(** X2: a negative track index counts from the end.  With
    [-len(tracks) <= track < 0], both scripts run exactly as with the index
    [track + len(tracks)]. *)
Theorem negative_track_index_counts_from_the_end gpx track segment
    output_filename fs :
  (- Z.of_nat (length (tracks gpx)) ≤ track < 0)%Z →
  gpx2html gpx track segment output_filename fs
  = gpx2html gpx (track + Z.of_nat (length (tracks gpx))) segment output_filename fs ∧
  ∀ distance_2d,
    plot_track_elevation distance_2d gpx track segment output_filename fs
    = plot_track_elevation distance_2d gpx (track + Z.of_nat (length (tracks gpx)))
        segment output_filename fs.
Proof.
  intros Ht.
  assert (Hsel : select gpx track segment
                 = select gpx (track + Z.of_nat (length (tracks gpx))) segment).
  { unfold select. by rewrite (py_getitem_from_end _ _ Ht). }
  split.
  - by rewrite !gpx2html_run, Hsel.
  - intros distance_2d. by rewrite !plot_track_elevation_run, Hsel.
Qed.

Lemma negative_track_index_counts_from_the_end_witness :
  gpx2html example_gpx (-1) 0 "out.html" ∅
  = gpx2html example_gpx (-1 + Z.of_nat (length (tracks example_gpx))) 0 "out.html" ∅ ∧
  ∀ distance_2d,
    plot_track_elevation distance_2d example_gpx (-1) 0 "out.html" ∅
    = plot_track_elevation distance_2d example_gpx
        (-1 + Z.of_nat (length (tracks example_gpx))) 0 "out.html" ∅.
Proof.
  apply (negative_track_index_counts_from_the_end example_gpx (-1) 0 "out.html" ∅).
  simpl. lia.
Defined.

(** X3: a negative segment index counts from the end of the selected track's
    segments.  With [-len(segments) <= segment < 0], both scripts run exactly
    as with the index [segment + len(segments)]. *)
Theorem negative_segment_index_counts_from_the_end gpx track segment track_data
    output_filename fs :
  py_getitem (tracks gpx) track = Ok track_data →
  (- Z.of_nat (length (segments track_data)) ≤ segment < 0)%Z →
  gpx2html gpx track segment output_filename fs
  = gpx2html gpx track (segment + Z.of_nat (length (segments track_data)))
      output_filename fs ∧
  ∀ distance_2d,
    plot_track_elevation distance_2d gpx track segment output_filename fs
    = plot_track_elevation distance_2d gpx track
        (segment + Z.of_nat (length (segments track_data))) output_filename fs.
Proof.
  intros Htd Hs.
  assert (Hsel : select gpx track segment
                 = select gpx track (segment + Z.of_nat (length (segments track_data)))).
  { unfold select, mbind, result_bind. rewrite Htd. by apply py_getitem_from_end. }
  split.
  - by rewrite !gpx2html_run, Hsel.
  - intros distance_2d. by rewrite !plot_track_elevation_run, Hsel.
Qed.

Lemma negative_segment_index_counts_from_the_end_witness :
  gpx2html example_gpx 0 (-1) "out.html" ∅
  = gpx2html example_gpx 0
      (-1 + Z.of_nat (length (segments (mkTrack [mkSegment example_points]))))
      "out.html" ∅ ∧
  ∀ distance_2d,
    plot_track_elevation distance_2d example_gpx 0 (-1) "out.html" ∅
    = plot_track_elevation distance_2d example_gpx 0
        (-1 + Z.of_nat (length (segments (mkTrack [mkSegment example_points]))))
        "out.html" ∅.
Proof.
  apply (negative_segment_index_counts_from_the_end example_gpx 0 (-1)
           (mkTrack [mkSegment example_points]) "out.html" ∅).
  - reflexivity.
  - simpl. lia.
Defined.

(** ** The output files *)

Lemma gpx2html_files gpx track segment output_filename fs :
  snd (gpx2html gpx track segment output_filename fs) = fs ∨
  ∃ m, gpx2html gpx track segment output_filename fs
       = (Ok (), <[output_filename := HtmlFile m]> fs).
Proof.
  rewrite gpx2html_run.
  destruct (select gpx track segment) as [segment_data|e]; [|by left].
  destruct (coordinates segment_data); [by left|right; by eexists].
Qed.

Lemma plot_track_elevation_files distance_2d gpx track segment output_filename fs :
  snd (plot_track_elevation distance_2d gpx track segment output_filename fs) = fs ∨
  ∃ f, plot_track_elevation distance_2d gpx track segment output_filename fs
       = (Ok (), <[output_filename := ImageFile f 100]> fs).
Proof.
  rewrite plot_track_elevation_run.
  destruct (select gpx track segment) as [segment_data|e]; [|by left].
  destruct (py_list _ _) as [ds|e]; [|by left].
  destruct (py_min _) as [bottom|e]; [|by left].
  destruct (py_max _) as [top|e]; [|by left].
  right. by eexists.
Qed.

Lemma gpx2html_failure gpx track segment output_filename fs e :
  fst (gpx2html gpx track segment output_filename fs) = Raise e →
  snd (gpx2html gpx track segment output_filename fs) = fs.
Proof.
  rewrite gpx2html_run.
  destruct (select gpx track segment) as [segment_data|e']; [|done].
  destruct (coordinates segment_data); [done|discriminate].
Qed.

Lemma plot_track_elevation_failure distance_2d gpx track segment output_filename
    fs e :
  fst (plot_track_elevation distance_2d gpx track segment output_filename fs)
  = Raise e →
  snd (plot_track_elevation distance_2d gpx track segment output_filename fs) = fs.
Proof.
  rewrite plot_track_elevation_run.
  destruct (select gpx track segment) as [segment_data|e']; [|done].
  destruct (py_list _ _) as [ds|e']; [|done].
  destruct (py_min _) as [bottom|e']; [|done].
  destruct (py_max _) as [top|e']; [discriminate|done].
Qed.

(** X4: the scripts write one file at most.  Whatever the input and the
    outcome, a file under a name other than [output_filename] is after the
    run what it was before (present or absent). *)
Theorem only_the_output_file_is_written gpx track segment output_filename fs
    (name : string) :
  name ≠ output_filename →
  snd (gpx2html gpx track segment output_filename fs) !! name = fs !! name ∧
  ∀ distance_2d,
    snd (plot_track_elevation distance_2d gpx track segment output_filename fs)
      !! name = fs !! name.
Proof.
  intros Hname. split.
  - destruct (gpx2html_files gpx track segment output_filename fs)
      as [->|[m ->]]; [done|].
    cbn [snd]. by rewrite lookup_insert_ne.
  - intros distance_2d.
    destruct (plot_track_elevation_files distance_2d gpx track segment
                output_filename fs) as [->|[f ->]]; [done|].
    cbn [snd]. by rewrite lookup_insert_ne.
Qed.

Lemma only_the_output_file_is_written_witness :
  snd (gpx2html example_gpx 0 0 "out.html" ∅) !! "ride.gpx"
  = (∅ : gmap string File) !! "ride.gpx" ∧
  ∀ distance_2d,
    snd (plot_track_elevation distance_2d example_gpx 0 0 "out.html" ∅)
      !! "ride.gpx" = (∅ : gmap string File) !! "ride.gpx".
Proof.
  apply (only_the_output_file_is_written example_gpx 0 0 "out.html" ∅ "ride.gpx").
  discriminate.
Defined.

(** X5: a run that raises writes nothing.  Whatever exception ends either
    script, the output files are exactly what they were before the run: no
    partial or empty output file is left behind. *)
Theorem failed_run_writes_nothing gpx track segment output_filename fs :
  (∀ e, fst (gpx2html gpx track segment output_filename fs) = Raise e →
        snd (gpx2html gpx track segment output_filename fs) = fs) ∧
  (∀ distance_2d e,
     fst (plot_track_elevation distance_2d gpx track segment output_filename fs)
     = Raise e →
     snd (plot_track_elevation distance_2d gpx track segment output_filename fs)
     = fs).
Proof.
  split.
  - intros e. apply gpx2html_failure.
  - intros distance_2d e. apply plot_track_elevation_failure.
Qed.


(** ** The cumulative distances *)

Section CumulativeDistances.

Variable distance_2d : GPXTrackPoint → GPXTrackPoint → Q.

Lemma py_list_Ok_inv pts ds :
  py_list distance_2d (partial_distances pts) = Ok ds →
  ∃ p rest, pts = p :: rest ∧ ds = running_total distance_2d p 0 (p :: rest).
Proof.
  destruct pts as [|p rest].
  - rewrite py_list_created_nil. discriminate.
  - rewrite py_list_created_cons. intros [= <-]. by exists p, rest.
Qed.

Lemma running_total_step previous total pts (i : nat) p q a :
  (previous :: pts) !! i = Some p →
  pts !! i = Some q →
  (total :: running_total distance_2d previous total pts) !! i = Some a →
  running_total distance_2d previous total pts !! i
  = Some (a + distance_2d q p).
Proof.
  revert previous total i.
  induction pts as [|x xs IH]; intros previous total i Hp Hq Ha; [done|].
  destruct i as [|i].
  - simpl in Hp, Hq, Ha. injection Hp as <-. injection Hq as <-.
    injection Ha as <-. reflexivity.
  - cbn [running_total]. cbn [running_total] in Ha.
    apply (IH x _ i); assumption.
Qed.

Lemma running_total_app previous total pts more :
  ∃ ds', running_total distance_2d previous total (pts ++ more)
         = running_total distance_2d previous total pts ++ ds' ∧
         length ds' = length more.
Proof.
  revert previous total. induction pts as [|x xs IH]; intros previous total.
  - exists (running_total distance_2d previous total more).
    split; [reflexivity|apply running_total_length].
  - destruct (IH x (total + distance_2d x previous)) as (ds' & Heq & Hlen).
    exists ds'. split; [|exact Hlen].
    cbn [app running_total]. by rewrite Heq.
Qed.

(** X7: the cumulative distances are the running sums of the distances
    between consecutive points.  The first value is 0 plus the distance of
    the first point to itself, and each later value is the value before it
    plus the distance of its point to the point before. *)
Theorem cumulative_distances_are_running_sums pts ds :
  py_list distance_2d (partial_distances pts) = Ok ds →
  (∃ p0, pts !! 0%nat = Some p0 ∧ ds !! 0%nat = Some (0 + distance_2d p0 p0)) ∧
  (∀ (i : nat) p q a,
     pts !! i = Some p → pts !! S i = Some q → ds !! i = Some a →
     ds !! S i = Some (a + distance_2d q p)).
Proof.
  intros (p0 & rest & -> & ->)%py_list_Ok_inv. split.
  - by exists p0.
  - intros i p q a Hp Hq Ha. cbn [running_total] in *.
    apply (running_total_step p0 _ rest i p q a); assumption.
Qed.

(** X8: appending points to a segment leaves the earlier cumulative
    distances as they were.  The cumulative distances of [pts ++ more] begin
    with those of [pts], followed by one value per appended point. *)
Theorem cumulative_distances_of_a_prefix pts more ds :
  py_list distance_2d (partial_distances pts) = Ok ds →
  ∃ ds', py_list distance_2d (partial_distances (pts ++ more)) = Ok (ds ++ ds') ∧
         length ds' = length more.
Proof.
  intros (p0 & rest & -> & ->)%py_list_Ok_inv.
  destruct (running_total_app p0 (0 + distance_2d p0 p0) rest more)
    as (ds' & Heq & Hlen).
  exists ds'. split; [|exact Hlen].
  change ((p0 :: rest) ++ more) with (p0 :: (rest ++ more)).
  rewrite py_list_created_cons. cbn [running_total app]. by rewrite Heq.
Qed.

Lemma nexts_finished k :
  nexts distance_2d k GenFinished = replicate k StopIteration.
Proof. induction k as [|k IH]; [done|]. cbn. by rewrite IH. Qed.

Lemma nexts_suspended last dist rest k :
  nexts distance_2d (length rest + k) (GenSuspended last dist rest)
  = (Yield <$> running_total distance_2d last dist rest)
      ++ replicate k StopIteration.
Proof.
  revert last dist. induction rest as [|p rest IH]; intros last dist.
  - destruct k as [|k]; [done|]. cbn. by rewrite nexts_finished.
  - cbn. by rewrite IH.
Qed.

(** X9: driving the generator by hand agrees with [list()].  On a non-empty
    point sequence the first [len(points)] calls of [next] yield the
    cumulative distances in order, and every further call ends with
    StopIteration. *)
Theorem next_yields_each_distance_then_stops pts ds (k : nat) :
  py_list distance_2d (partial_distances pts) = Ok ds →
  nexts distance_2d (length pts + k) (partial_distances pts)
  = (Yield <$> ds) ++ replicate k StopIteration.
Proof.
  intros (p0 & rest & -> & ->)%py_list_Ok_inv.
  change (nexts distance_2d (length (p0 :: rest) + k) (partial_distances (p0 :: rest)))
    with (Yield (0 + distance_2d p0 p0)
            :: nexts distance_2d (length rest + k)
                 (GenSuspended p0 (0 + distance_2d p0 p0) rest)).
  rewrite nexts_suspended. reflexivity.
Qed.

(** X10: a generator that has failed is finished.  On an empty point sequence
    the first call of [next] raises IndexError and every later call ends
    with StopIteration: the error is raised once. *)
Theorem failed_generator_is_finished (k : nat) :
  nexts distance_2d (S k) (partial_distances [])
  = GenRaise IndexError :: replicate k StopIteration.
Proof.
  change (nexts distance_2d (S k) (partial_distances []))
    with (GenRaise IndexError :: nexts distance_2d k GenFinished).
  by rewrite nexts_finished.
Qed.

End CumulativeDistances.

Lemma example_distances :
  py_list taxicab_distance (partial_distances example_points)
  = Ok (running_total taxicab_distance (mkPoint 0 0 (Some 10)) 0 example_points).
Proof. apply py_list_created_cons. Defined.

Lemma cumulative_distances_are_running_sums_witness :
  let ds := running_total taxicab_distance (mkPoint 0 0 (Some 10)) 0 example_points in
  (∃ p0, example_points !! 0%nat = Some p0 ∧
         ds !! 0%nat = Some (0 + taxicab_distance p0 p0)) ∧
  (∀ (i : nat) p q a,
     example_points !! i = Some p → example_points !! S i = Some q →
     ds !! i = Some a → ds !! S i = Some (a + taxicab_distance q p)).
Proof.
  apply (cumulative_distances_are_running_sums taxicab_distance example_points).
  apply example_distances.
Defined.

Lemma cumulative_distances_of_a_prefix_witness :
  ∃ ds',
    py_list taxicab_distance (partial_distances (example_points ++ example_points_flat))
    = Ok (running_total taxicab_distance (mkPoint 0 0 (Some 10)) 0 example_points ++ ds') ∧
    length ds' = length example_points_flat.
Proof.
  apply (cumulative_distances_of_a_prefix taxicab_distance example_points
           example_points_flat).
  apply example_distances.
Defined.

Lemma next_yields_each_distance_then_stops_witness :
  nexts taxicab_distance (length example_points + 2) (partial_distances example_points)
  = (Yield <$> running_total taxicab_distance (mkPoint 0 0 (Some 10)) 0 example_points)
      ++ replicate 2 StopIteration.
Proof.
  apply (next_yields_each_distance_then_stops taxicab_distance example_points).
  apply example_distances.
Defined.

(** ** The elevation chart *)

Lemma elevations_nil_inv segment_data :
  elevations segment_data = [] → points segment_data = [].
Proof. unfold elevations. apply fmap_nil_inv. Qed.

Lemma plot_track_elevation_Ok_inv distance_2d gpx track segment output_filename
    fs r fs' :
  plot_track_elevation distance_2d gpx track segment output_filename fs
  = (Ok r, fs') →
  ∃ segment_data, select gpx track segment = Ok segment_data ∧
                  points segment_data ≠ [].
Proof.
  rewrite plot_track_elevation_run.
  destruct (select gpx track segment) as [segment_data|e]; [|discriminate].
  intros Hrun. exists segment_data. split; [reflexivity|].
  intros Hpts. rewrite Hpts, py_list_created_nil in Hrun. discriminate.
Qed.

(** X11: what a successful run of the elevation script has drawn.  If the run
    returns normally, the indices selected a segment with at least one
    point, the file written holds one filled area whose x and y series both
    have one value per point, and nothing else was written. *)
Theorem elevation_chart_of_a_successful_run distance_2d gpx track segment
    output_filename fs fs' :
  plot_track_elevation distance_2d gpx track segment output_filename fs
  = (Ok (), fs') →
  ∃ segment_data ds bottom top,
    select gpx track segment = Ok segment_data ∧
    points segment_data ≠ [] ∧
    fs' = <[output_filename :=
              ImageFile (mkFigure (9, 3) [(ds, elevations segment_data)]
                           (Some km_label) (Some m_label) (Some (bottom, top)))
                        100]> fs ∧
    length ds = length (points segment_data) ∧
    length (elevations segment_data) = length (points segment_data).
Proof.
  intros Hrun.
  destruct (plot_track_elevation_Ok_inv _ _ _ _ _ _ _ _ Hrun)
    as (segment_data & Hsel & Hne).
  destruct (plot_track_elevation_nonempty distance_2d gpx track segment
              output_filename fs segment_data Hsel Hne)
    as (ds & bottom & top & Hrun' & Hds & _).
  rewrite Hrun' in Hrun. injection Hrun as <-.
  exists segment_data, ds, bottom, top.
  split; [exact Hsel|]. split; [exact Hne|]. split; [reflexivity|]. split.
  - destruct (points segment_data) as [|p pts]; [done|].
    rewrite py_list_created_cons in Hds. injection Hds as <-.
    exact (running_total_length distance_2d p 0 (p :: pts)).
  - apply length_fmap.
Qed.

Lemma elevation_chart_of_a_successful_run_witness :
  ∃ segment_data ds bottom top,
    select example_gpx 0 0 = Ok segment_data ∧
    points segment_data ≠ [] ∧
    snd (plot_track_elevation taxicab_distance example_gpx 0 0 "out.png" ∅)
    = <["out.png" :=
          ImageFile (mkFigure (9, 3) [(ds, elevations segment_data)]
                       (Some km_label) (Some m_label) (Some (bottom, top)))
                    100]> ∅ ∧
    length ds = length (points segment_data) ∧
    length (elevations segment_data) = length (points segment_data).
Proof.
  apply (elevation_chart_of_a_successful_run taxicab_distance example_gpx 0 0
           "out.png" ∅).
  destruct (plot_track_elevation_nonempty taxicab_distance example_gpx 0 0
              "out.png" ∅ (mkSegment example_points))
    as (ds & bottom & top & -> & _); [reflexivity|discriminate|].
  reflexivity.
Defined.

Lemma py_min_replicate_0 (n : nat) : py_min (replicate (S n) 0) = Ok 0.
Proof.
  cbn [replicate py_min]. f_equal.
  induction n as [|n IH]; [reflexivity|exact IH].
Qed.

Lemma py_max_replicate_0 (n : nat) : py_max (replicate (S n) 0) = Ok 0.
Proof.
  cbn [replicate py_max]. f_equal.
  induction n as [|n IH]; [reflexivity|exact IH].
Qed.

Lemma elevations_all_missing pts :
  Forall (λ p, elevation p = None) pts →
  elevations (mkSegment pts) = replicate (length pts) 0.
Proof.
  unfold elevations. cbn [points].
  induction 1 as [|p pts Hp _ IH]; [reflexivity|].
  cbn [fmap list_fmap length replicate]. rewrite Hp.
  f_equal. exact IH.
Qed.

(** X13: a segment recorded without elevations gives a flat chart at 0.  If
    no point of the selected, non-empty segment has an elevation, every
    plotted elevation is 0 and the y-limits are (0, 0). *)
Theorem no_elevation_data_gives_zero_limits distance_2d gpx track segment
    output_filename fs pts :
  select gpx track segment = Ok (mkSegment pts) →
  pts ≠ [] →
  Forall (λ p, elevation p = None) pts →
  ∃ ds,
    plot_track_elevation distance_2d gpx track segment output_filename fs
    = (Ok (), <[output_filename :=
                  ImageFile (mkFigure (9, 3) [(ds, replicate (length pts) 0)]
                               (Some km_label) (Some m_label) (Some (0, 0)))
                            100]> fs).
Proof.
  intros Hsel Hne Hnone.
  rewrite plot_track_elevation_run, Hsel, (elevations_all_missing _ Hnone).
  cbn [points].
  destruct pts as [|p pts]; [done|].
  rewrite py_list_created_cons.
  cbn [length]. rewrite py_min_replicate_0, py_max_replicate_0.
  by eexists.
Qed.

Lemma no_elevation_data_gives_zero_limits_witness :
  ∃ ds,
    plot_track_elevation taxicab_distance
      (mkGPX [mkTrack [mkSegment [mkPoint 0 0 None; mkPoint 0 (1 # 100) None]]])
      0 0 "out.png" ∅
    = (Ok (), <["out.png" :=
                  ImageFile (mkFigure (9, 3) [(ds, replicate 2 0)]
                               (Some km_label) (Some m_label) (Some (0, 0)))
                            100]> ∅).
Proof.
  apply (no_elevation_data_gives_zero_limits taxicab_distance
           (mkGPX [mkTrack [mkSegment [mkPoint 0 0 None; mkPoint 0 (1 # 100) None]]])
           0 0 "out.png" ∅ [mkPoint 0 0 None; mkPoint 0 (1 # 100) None]).
  - reflexivity.
  - discriminate.
  - repeat constructor.
Defined.

Section MissingElevation.

Variable distance_2d : GPXTrackPoint → GPXTrackPoint → Q.

(** The planar distance looks at latitude and longitude only. *)
Hypothesis distance_2d_planar : ∀ p p' q q',
  latitude p = latitude p' → longitude p = longitude p' →
  latitude q = latitude q' → longitude q = longitude q' →
  distance_2d p q = distance_2d p' q'.

Lemma running_total_same_profile previous previous' total pts pts' :
  latitude previous = latitude previous' →
  longitude previous = longitude previous' →
  Forall2 same_profile_point pts pts' →
  running_total distance_2d previous total pts
  = running_total distance_2d previous' total pts'.
Proof.
  intros Hlat Hlon Hpts. revert previous previous' total Hlat Hlon.
  induction Hpts as [|p p' pts pts' (Hplat & Hplon & _) _ IH];
    intros previous previous' total Hlat Hlon; [reflexivity|].
  cbn [running_total].
  rewrite (distance_2d_planar p p' previous previous') by assumption.
  f_equal. by apply IH.
Qed.

Lemma elevations_same_profile pts pts' :
  Forall2 same_profile_point pts pts' →
  elevations (mkSegment pts) = elevations (mkSegment pts').
Proof.
  unfold elevations. cbn [points].
  induction 1 as [|p p' pts pts' (_ & _ & He) _ IH]; [reflexivity|].
  cbn [fmap list_fmap]. rewrite He. f_equal. exact IH.
Qed.

(** X14: a missing elevation cannot be told from an elevation of 0.  Two
    documents whose selected segments agree point by point on position and
    on the elevation after zero-filling give the same run of the elevation
    script: the same outcome and the same chart. *)
Theorem missing_elevation_same_as_zero gpx1 gpx2 track segment output_filename
    fs pts1 pts2 :
  select gpx1 track segment = Ok (mkSegment pts1) →
  select gpx2 track segment = Ok (mkSegment pts2) →
  Forall2 same_profile_point pts1 pts2 →
  plot_track_elevation distance_2d gpx1 track segment output_filename fs
  = plot_track_elevation distance_2d gpx2 track segment output_filename fs.
Proof.
  intros Hsel1 Hsel2 Hsame.
  rewrite !plot_track_elevation_run, Hsel1, Hsel2.
  rewrite (elevations_same_profile _ _ Hsame). cbn [points].
  destruct Hsame as [|p p' pts pts' (Hlat & Hlon & He) Hrest]; [reflexivity|].
  rewrite !py_list_created_cons.
  rewrite (running_total_same_profile p p' 0 (p :: pts) (p' :: pts') Hlat Hlon)
    by (constructor; [done|exact Hrest]).
  reflexivity.
Qed.

End MissingElevation.

Lemma taxicab_distance_planar p p' q q' :
  latitude p = latitude p' → longitude p = longitude p' →
  latitude q = latitude q' → longitude q = longitude q' →
  taxicab_distance p q = taxicab_distance p' q'.
Proof. unfold taxicab_distance. by intros -> -> -> ->. Qed.

Lemma missing_elevation_same_as_zero_witness :
  plot_track_elevation taxicab_distance example_gpx 0 0 "out.png" ∅
  = plot_track_elevation taxicab_distance
      (mkGPX [mkTrack [mkSegment example_points_zero]]) 0 0 "out.png" ∅.
Proof.
  apply (missing_elevation_same_as_zero taxicab_distance taxicab_distance_planar
           example_gpx (mkGPX [mkTrack [mkSegment example_points_zero]])
           0 0 "out.png" ∅ example_points example_points_zero).
  - reflexivity.
  - reflexivity.
  - repeat constructor.
Defined.

(** ** The map *)

Lemma coordinates_inj segment_data1 segment_data2 :
  coordinates segment_data1 = coordinates segment_data2 →
  Forall2 same_position (points segment_data1) (points segment_data2).
Proof.
  unfold coordinates.
  generalize (points segment_data2) as pts2.
  induction (points segment_data1) as [|p pts1 IH]; intros [|q pts2] Heq;
    try discriminate; [constructor|].
  cbn [fmap list_fmap] in Heq. injection Heq as Hlat Hlon Hrest.
  constructor; [by split|by apply IH].
Qed.

(** X15: the saved map records the positions exactly.  If the map script
    succeeds on two documents and writes the same file content, the selected
    segments have the same number of points, with the same latitude and
    longitude point by point. *)
Theorem same_map_same_positions gpx1 gpx2 track1 segment1 track2 segment2
    output_filename fs1 fs2 segment_data1 segment_data2 m :
  select gpx1 track1 segment1 = Ok segment_data1 →
  select gpx2 track2 segment2 = Ok segment_data2 →
  gpx2html gpx1 track1 segment1 output_filename fs1
  = (Ok (), <[output_filename := HtmlFile m]> fs1) →
  gpx2html gpx2 track2 segment2 output_filename fs2
  = (Ok (), <[output_filename := HtmlFile m]> fs2) →
  Forall2 same_position (points segment_data1) (points segment_data2).
Proof.
  intros Hsel1 Hsel2. rewrite !gpx2html_run, Hsel1, Hsel2.
  destruct (coordinates segment_data1) as [|c1 cs1] eqn:Hc1; [discriminate|].
  destruct (coordinates segment_data2) as [|c2 cs2] eqn:Hc2; [discriminate|].
  intros [= H1] [= H2].
  assert (Hm1 : HtmlFile (rendered_map (c1 :: cs1)) = HtmlFile m).
  { apply (f_equal (λ fs, fs !! output_filename)) in H1.
    rewrite !lookup_insert_eq in H1. congruence. }
  assert (Hm2 : HtmlFile (rendered_map (c2 :: cs2)) = HtmlFile m).
  { apply (f_equal (λ fs, fs !! output_filename)) in H2.
    rewrite !lookup_insert_eq in H2. congruence. }
  rewrite <- Hm2 in Hm1. injection Hm1 as Hc Hcs.
  apply coordinates_inj. rewrite Hc1, Hc2. by rewrite Hc, Hcs.
Qed.

Lemma same_map_same_positions_witness :
  Forall2 same_position (points (mkSegment example_points))
          (points (mkSegment example_points_flat)).
Proof.
  apply (same_map_same_positions example_gpx example_gpx_flat 0 0 0 0 "out.html"
           ∅ ∅ (mkSegment example_points) (mkSegment example_points_flat)
           (rendered_map [(0, 0); (0, 1 # 100); (0, 2 # 100)]));
    reflexivity.
Defined.

(** ** The command line *)

Section CommandLineFacts.

Variable py_int : string → result Z.
Variable load : string → option GPX.

Lemma read_argv_lookup (argv : list string) :
  read_argv py_int argv =
  match argv !! 1%nat with
  | None => Raise IndexError
  | Some filename =>
      match argv !! 2%nat with
      | None => Raise IndexError
      | Some a2 =>
          match py_int a2 with
          | Raise e => Raise e
          | Ok track =>
              match argv !! 3%nat with
              | None => Raise IndexError
              | Some a3 =>
                  match py_int a3 with
                  | Raise e => Raise e
                  | Ok segment =>
                      match argv !! 4%nat with
                      | None => Raise IndexError
                      | Some output_filename =>
                          Ok (mkArgs filename track segment output_filename)
                      end
                  end
              end
          end
      end
  end.
Proof.
  unfold read_argv, mbind, result_bind.
  rewrite !py_getitem_lookup by lia.
  change (Z.to_nat 1) with 1%nat. change (Z.to_nat 2) with 2%nat.
  change (Z.to_nat 3) with 3%nat. change (Z.to_nat 4) with 4%nat.
  destruct (argv !! 1%nat); [|reflexivity].
  destruct (argv !! 2%nat) as [a2|]; [|reflexivity].
  destruct (py_int a2); [|reflexivity].
  destruct (argv !! 3%nat) as [a3|]; [|reflexivity].
  destruct (py_int a3); [|reflexivity].
  destruct (argv !! 4%nat); reflexivity.
Qed.

(** X16: with fewer than four arguments nothing is read or written.  If
    [sys.argv] has fewer than five entries, both scripts end with an uncaught
    exception raised while the arguments are taken, whatever the input file
    holds (it is not opened), and the output files are left as they were. *)
Theorem missing_arguments_fail (argv : list string) fs :
  (length argv < 5)%nat →
  ∃ e, read_argv py_int argv = Raise e ∧
       gpx2html_main py_int load argv fs = (Uncaught e, fs) ∧
       ∀ distance_2d,
         plot_track_elevation_main py_int load distance_2d argv fs
         = (Uncaught e, fs).
Proof.
  intros Hlen.
  assert (Hargs : ∃ e, read_argv py_int argv = Raise e).
  { rewrite read_argv_lookup.
    destruct (argv !! 1%nat); [|by eexists].
    destruct (argv !! 2%nat) as [a2|]; [|by eexists].
    destruct (py_int a2); [|by eexists].
    destruct (argv !! 3%nat) as [a3|]; [|by eexists].
    destruct (py_int a3); [|by eexists].
    rewrite (lookup_ge_None_2 argv 4) by lia. by eexists. }
  destruct Hargs as [e He]. exists e. split; [exact He|].
  unfold gpx2html_main, plot_track_elevation_main, script_main.
  rewrite He. done.
Qed.

(** X17: only the four positional arguments matter.  Two command lines that
    agree on [sys.argv[1]] to [sys.argv[4]] give the same run of either
    script: the program name and any further argument are ignored. *)
Theorem only_four_arguments_matter (argv argv' : list string) fs :
  (∀ i : nat, (1 ≤ i ≤ 4)%nat → argv !! i = argv' !! i) →
  gpx2html_main py_int load argv fs = gpx2html_main py_int load argv' fs ∧
  ∀ distance_2d,
    plot_track_elevation_main py_int load distance_2d argv fs
    = plot_track_elevation_main py_int load distance_2d argv' fs.
Proof.
  intros Hsame.
  assert (Hargs : read_argv py_int argv = read_argv py_int argv').
  { rewrite !read_argv_lookup.
    by rewrite (Hsame 1%nat), (Hsame 2%nat), (Hsame 3%nat), (Hsame 4%nat) by lia. }
  unfold gpx2html_main, plot_track_elevation_main, script_main.
  by rewrite Hargs.
Qed.

(** X18: what a completed run of the elevation script required.  If the
    whole script returns normally, the four arguments were present with
    indices that [int] accepted, the input file could be opened and parsed,
    the indices selected a segment of the document, that segment has a
    point, and the one file written is an image under [sys.argv[4]]. *)
Theorem plot_track_elevation_main_completes_only_if distance_2d
    (argv : list string) fs :
  fst (plot_track_elevation_main py_int load distance_2d argv fs) = Completed →
  ∃ a gpx segment_data fig,
    read_argv py_int argv = Ok a ∧
    load (arg_filename a) = Some gpx ∧
    select gpx (arg_track a) (arg_segment a) = Ok segment_data ∧
    points segment_data ≠ [] ∧
    snd (plot_track_elevation_main py_int load distance_2d argv fs)
    = <[arg_output_filename a := ImageFile fig 100]> fs.
Proof.
  unfold plot_track_elevation_main, script_main.
  destruct (read_argv py_int argv) as [a|e]; [|discriminate].
  destruct (load (arg_filename a)) as [gpx|] eqn:Hload; [|discriminate].
  destruct (plot_track_elevation distance_2d gpx (arg_track a) (arg_segment a)
              (arg_output_filename a) fs) as [[r|e] fs'] eqn:Hrun;
    [|discriminate].
  intros _.
  destruct (plot_track_elevation_Ok_inv _ _ _ _ _ _ _ _ Hrun)
    as (segment_data & Hsel & Hne).
  destruct (plot_track_elevation_nonempty distance_2d gpx (arg_track a)
              (arg_segment a) (arg_output_filename a) fs segment_data Hsel Hne)
    as (ds & bottom & top & Hrun' & _).
  exists a, gpx, segment_data,
         (rendered_figure ds (elevations segment_data) bottom top).
  split; [reflexivity|]. split; [exact Hload|]. split; [exact Hsel|].
  split; [exact Hne|]. cbn [snd]. congruence.
Qed.

End CommandLineFacts.

Lemma missing_arguments_fail_witness :
  ∃ e, read_argv decimal_int ["plot_track_elevation.py"; "ride.gpx"; "0"] = Raise e ∧
       gpx2html_main decimal_int example_load
         ["plot_track_elevation.py"; "ride.gpx"; "0"] ∅ = (Uncaught e, ∅) ∧
       ∀ distance_2d,
         plot_track_elevation_main decimal_int example_load distance_2d
           ["plot_track_elevation.py"; "ride.gpx"; "0"] ∅ = (Uncaught e, ∅).
Proof.
  apply (missing_arguments_fail decimal_int example_load
           ["plot_track_elevation.py"; "ride.gpx"; "0"] ∅).
  simpl. lia.
Defined.

Lemma only_four_arguments_matter_witness :
  gpx2html_main decimal_int example_load
    ["gpx2html.py"; "ride.gpx"; "0"; "-1"; "out.html"] ∅
  = gpx2html_main decimal_int example_load
      ["python"; "ride.gpx"; "0"; "-1"; "out.html"; "--verbose"] ∅ ∧
  ∀ distance_2d,
    plot_track_elevation_main decimal_int example_load distance_2d
      ["gpx2html.py"; "ride.gpx"; "0"; "-1"; "out.html"] ∅
    = plot_track_elevation_main decimal_int example_load distance_2d
        ["python"; "ride.gpx"; "0"; "-1"; "out.html"; "--verbose"] ∅.
Proof.
  apply (only_four_arguments_matter decimal_int example_load
           ["gpx2html.py"; "ride.gpx"; "0"; "-1"; "out.html"]
           ["python"; "ride.gpx"; "0"; "-1"; "out.html"; "--verbose"] ∅).
  intros [|[|[|[|[|i]]]]] Hi; try reflexivity; lia.
Defined.

Lemma plot_track_elevation_main_completes_only_if_witness :
  ∃ a gpx segment_data fig,
    read_argv decimal_int
      ["plot_track_elevation.py"; "ride.gpx"; "0"; "-1"; "out.png"] = Ok a ∧
    example_load (arg_filename a) = Some gpx ∧
    select gpx (arg_track a) (arg_segment a) = Ok segment_data ∧
    points segment_data ≠ [] ∧
    snd (plot_track_elevation_main decimal_int example_load taxicab_distance
           ["plot_track_elevation.py"; "ride.gpx"; "0"; "-1"; "out.png"] ∅)
    = <[arg_output_filename a := ImageFile fig 100]> ∅.
Proof.
  apply (plot_track_elevation_main_completes_only_if decimal_int example_load
           taxicab_distance
           ["plot_track_elevation.py"; "ride.gpx"; "0"; "-1"; "out.png"] ∅).
  unfold plot_track_elevation_main, script_main.
  change (read_argv decimal_int
            ["plot_track_elevation.py"; "ride.gpx"; "0"; "-1"; "out.png"])
    with (Ok (mkArgs "ride.gpx" 0 (-1) "out.png")).
  cbn [arg_filename arg_track arg_segment arg_output_filename].
  change (example_load "ride.gpx") with (Some example_gpx).
  destruct (plot_track_elevation_nonempty taxicab_distance example_gpx 0 (-1)
              "out.png" ∅ (mkSegment example_points))
    as (ds & bottom & top & -> & _); [reflexivity|discriminate|].
  reflexivity.
Defined.

(** ** More on the tick labels *)

(** X19: the label of a y-axis tick [x] is the general-format rendering of
    [x] itself, followed by [m]: for finite non-zero [x] a decimal literal
    denoting [x] rounded to six significant digits (to nearest, ties to
    even), in scientific notation exactly when the rounded value is outside
    [1e-4, 1e6), without trailing zeros after the point. *)
Theorem m_label_general_format (x : spec_float) :
  ∃ body, m_label x = body +:+ "m" ∧ general_format x body.
Proof.
  exists (format_g x). split; [reflexivity|]. apply format_g_general.
Qed.

Lemma shr_1_nonneg (mrs : shr_record) :
  (0 ≤ shr_m mrs)%Z → (0 ≤ shr_m (shr_1 mrs))%Z.
Proof. destruct mrs as [[|[p|p|]|p] r s]; cbn; lia. Qed.

Lemma iter_shr_1_nonneg (p : positive) (mrs : shr_record) :
  (0 ≤ shr_m mrs)%Z → (0 ≤ shr_m (SpecFloat.iter_pos shr_1 p mrs))%Z.
Proof.
  revert mrs. induction p as [p IH|p IH|]; intros mrs Hm; cbn [SpecFloat.iter_pos].
  - by apply IH, IH, shr_1_nonneg.
  - by apply IH, IH.
  - by apply shr_1_nonneg.
Qed.

Lemma shr_fexp_nonneg (m e : Z) (l : location) :
  (0 ≤ m)%Z → (0 ≤ shr_m (fst (shr_fexp prec emax m e l)))%Z.
Proof.
  intros Hm. unfold shr_fexp, shr.
  assert (H0 : (0 ≤ shr_m (shr_record_of_loc m l))%Z).
  { destruct l as [|[]]; exact Hm. }
  destruct (fexp prec emax (Zdigits2 m + e) - e)%Z; cbn [fst]; try exact H0.
  by apply iter_shr_1_nonneg.
Qed.

Lemma round_nearest_even_nonneg (m : Z) (l : location) :
  (0 ≤ m)%Z → (0 ≤ round_nearest_even m l)%Z.
Proof.
  intros Hm. unfold round_nearest_even.
  destruct l as [|[]]; try lia. destruct (IntDef.Z.even m); lia.
Qed.

Lemma binary_round_aux_sign (s : bool) (m e : Z) (l : location) :
  (0 ≤ m)%Z →
  has_sign s (binary_round_aux prec emax s m e l) ∧
  binary_round_aux prec emax (negb s) m e l
  = SFopp (binary_round_aux prec emax s m e l).
Proof.
  intros Hm. unfold binary_round_aux.
  pose proof (shr_fexp_nonneg m e l Hm) as H1.
  destruct (shr_fexp prec emax m e l) as [mrs' e'] eqn:E1. cbn [fst] in H1.
  pose proof (shr_fexp_nonneg (round_nearest_even (shr_m mrs') (loc_of_shr_record mrs'))
                e' loc_Exact (round_nearest_even_nonneg _ _ H1)) as H2.
  destruct (shr_fexp prec emax _ e' loc_Exact) as [mrs'' e''] eqn:E2.
  cbn [fst] in H2.
  destruct (shr_m mrs'') as [|q|q]; [done| |lia].
  destruct (e'' <=? emax - prec)%Z; done.
Qed.

Lemma float_div_sign (s : bool) (m : positive) (e : Z) (my : positive) (ey : Z) :
  has_sign s (float_div (S754_finite s m e) (S754_finite false my ey)) ∧
  float_div (S754_finite (negb s) m e) (S754_finite false my ey)
  = SFopp (float_div (S754_finite s m e) (S754_finite false my ey)).
Proof.
  unfold float_div, SFdiv.
  destruct (SFdiv_core_binary prec emax (Z.pos m) e (Z.pos my) ey) as [[mz ez] lz] eqn:E.
  assert (Hmz : (0 ≤ mz)%Z).
  { unfold SFdiv_core_binary in E. cbv zeta in E.
    match type of E with
    | (let '(q, r) := IntDef.Z.div_eucl ?a ?b in _) = _ =>
        assert (Ha : (0 ≤ a)%Z);
        [|pose proof (Z.div_eucl_eq a b ltac:(lia)) as Heq;
          pose proof (Z.mod_pos_bound a b ltac:(lia)) as Hr;
          unfold Z.modulo in Hr;
          change IntDef.Z.div_eucl with Z.div_eucl in E;
          destruct (Z.div_eucl a b) as [q r]; injection E as <- _ _; nia]
    end.
    match goal with |- (0 ≤ match ?s with _ => _ end)%Z => destruct s end;
      [lia| |lia].
    change IntDef.Z.shiftl with Z.shiftl. apply Z.shiftl_nonneg. lia. }
  rewrite !xorb_false_r.
  apply binary_round_aux_sign, Hmz.
Qed.

Lemma format_g_opp (x : spec_float) :
  has_sign false x → format_g (SFopp x) = "-" +:+ format_g x.
Proof.
  destruct x as [s|s| |s m e]; cbn [has_sign]; [intros ->..|done|intros ->];
    reflexivity.
Qed.

(** X21: a negative tick is labelled with a minus sign before the label of
    its absolute value, on both axes (elevations below sea level on the
    y-axis). *)
Theorem negative_tick_labels (x : spec_float) :
  SFltb (S754_zero false) x = true →
  m_label (SFopp x) = "-" +:+ m_label x ∧ km_label (SFopp x) = "-" +:+ km_label x.
Proof.
  intros Hx.
  assert (Hsign : has_sign false x).
  { destruct x as [s|[]| |[] m e]; try discriminate Hx; reflexivity. }
  unfold m_label, km_label. split; [by rewrite format_g_opp|].
  change (float_of_Z 1000) with (S754_finite false 8796093022208000 (-43)).
  destruct x as [s|s| |s m e]; cbn [has_sign] in Hsign; try done; subst s.
  - reflexivity.
  - destruct (float_div_sign false m e 8796093022208000 (-43)) as [Hq Hopp].
    cbn [SFopp negb]. cbn [negb] in Hopp. rewrite Hopp.
    by rewrite format_g_opp.
Qed.

Lemma negative_tick_labels_witness :
  m_label (SFopp (float_of_Z 12)) = "-" +:+ m_label (float_of_Z 12) ∧
  km_label (SFopp (float_of_Z 12)) = "-" +:+ km_label (float_of_Z 12).
Proof. apply (negative_tick_labels (float_of_Z 12)). reflexivity. Defined.

(** ** More on the y-limits *)

(** X22: the y-limits are in order, and they coincide exactly for a flat
    profile.  On a non-empty selected segment the chart's lower limit is at
    most its upper limit, and the two are equal if and only if all plotted
    elevations are equal. *)
Theorem flat_profile_iff_equal_limits distance_2d gpx track segment
    output_filename fs segment_data :
  select gpx track segment = Ok segment_data →
  points segment_data ≠ [] →
  ∃ ds bottom top,
    plot_track_elevation distance_2d gpx track segment output_filename fs
    = (Ok (), <[output_filename :=
                  ImageFile (mkFigure (9, 3) [(ds, elevations segment_data)]
                               (Some km_label) (Some m_label) (Some (bottom, top)))
                            100]> fs) ∧
    bottom <= top ∧
    (bottom == top ↔
     ∀ x y, x ∈ elevations segment_data → y ∈ elevations segment_data → x == y).
Proof.
  intros Hsel Hne.
  destruct (plot_track_elevation_nonempty distance_2d gpx track segment
              output_filename fs segment_data Hsel Hne)
    as (ds & bottom & top & Hrun & _ & Hmin & Hmax).
  exists ds, bottom, top. split; [exact Hrun|].
  assert (Helev : elevations segment_data ≠ []).
  { intros H%elevations_nil_inv. done. }
  destruct (py_min_nonempty _ Helev) as (m & Hm & Hm_in & Hm_le).
  destruct (py_max_nonempty _ Helev) as (M & HM & HM_in & HM_le).
  rewrite Hmin in Hm. injection Hm as <-.
  rewrite Hmax in HM. injection HM as <-.
  split; [by apply Hm_le|]. split.
  - intros Heq x y Hx Hy.
    assert (Hb : ∀ z, z ∈ elevations segment_data → z == bottom).
    { intros z Hz. apply Qle_antisym; [|by apply Hm_le].
      rewrite Heq. by apply HM_le. }
    by rewrite (Hb x Hx), (Hb y Hy).
  - intros Hall. by apply Hall.
Qed.

Lemma flat_profile_iff_equal_limits_witness :
  ∃ ds bottom top,
    plot_track_elevation taxicab_distance example_gpx 0 0 "out.png" ∅
    = (Ok (), <["out.png" :=
                  ImageFile (mkFigure (9, 3)
                               [(ds, elevations (mkSegment example_points))]
                               (Some km_label) (Some m_label) (Some (bottom, top)))
                            100]> ∅) ∧
    bottom <= top ∧
    (bottom == top ↔
     ∀ x y, x ∈ elevations (mkSegment example_points) →
            y ∈ elevations (mkSegment example_points) → x == y).
Proof.
  apply (flat_profile_iff_equal_limits taxicab_distance example_gpx 0 0 "out.png"
           ∅ (mkSegment example_points)).
  - reflexivity.
  - discriminate.
Defined.

(** ** The two scripts together *)

(** X23: arguments good for the elevation script are good for the map
    script.  If the elevation script returns normally, the map script on the
    same document, indices and file list also returns normally and writes
    its map under [output_filename]. *)
Theorem elevation_success_implies_map_success distance_2d gpx track segment
    output_filename fs fs' :
  plot_track_elevation distance_2d gpx track segment output_filename fs
  = (Ok (), fs') →
  ∃ segment_data,
    select gpx track segment = Ok segment_data ∧
    gpx2html gpx track segment output_filename fs
    = (Ok (), <[output_filename :=
                  HtmlFile (mkMap None "OpenStreetMap" 1024 768
                              [PolyLine (coordinates segment_data) 6;
                               FitBounds (coordinates segment_data)])]> fs).
Proof.
  intros (segment_data & Hsel & Hne)%plot_track_elevation_Ok_inv.
  exists segment_data. split; [exact Hsel|].
  rewrite gpx2html_run, Hsel.
  destruct (coordinates segment_data) eqn:Hc; [|reflexivity].
  apply fmap_nil_inv in Hc. done.
Qed.

Lemma elevation_success_implies_map_success_witness :
  ∃ segment_data,
    select example_gpx 0 0 = Ok segment_data ∧
    gpx2html example_gpx 0 0 "out" ∅
    = (Ok (), <["out" :=
                  HtmlFile (mkMap None "OpenStreetMap" 1024 768
                              [PolyLine (coordinates segment_data) 6;
                               FitBounds (coordinates segment_data)])]> ∅).
Proof.
  apply (elevation_success_implies_map_success taxicab_distance example_gpx 0 0
           "out" ∅
           (snd (plot_track_elevation taxicab_distance example_gpx 0 0 "out" ∅))).
  destruct (plot_track_elevation_nonempty taxicab_distance example_gpx 0 0
              "out" ∅ (mkSegment example_points))
    as (ds & bottom & top & -> & _); [reflexivity|discriminate|].
  reflexivity.
Defined.
